(** * sql-compiler: the token classifier and the AST builder

    A shallow embedding of [src/modules/parser.mjs] (the pipeline
    [lexicalAnalysis] / [syntaticAnalysis]) and of the SELECT module that
    follows it in the sources ([walkWhereParts], [processColumn], the
    UNION wrapping), with the properties the specification states about
    them. *)

From Stdlib Require Import String Ascii List ZArith Lia Bool.
Import ListNotations.

Local Open Scope string_scope.
Local Open Scope Z_scope.

(** ** A small model of the JavaScript the parser relies on *)

Module JS.

(** Strings are sequences of code units; Rocq's [string] covers the code
    units below 256, which is where every character the parser looks at
    lives (quotes, parentheses, commas, ASCII letters and digits). *)

Definition len (s : string) : Z := Z.of_nat (String.length s).

(** [s.startsWith(p)] *)
Fixpoint startsWith (s p : string) : bool :=
  match p, s with
  | EmptyString, _ => true
  | String _ _, EmptyString => false
  | String c p', String d s' => Ascii.eqb d c && startsWith s' p'
  end.

(** [s.endsWith(p)] *)
Definition endsWith (s p : string) : bool :=
  let n := String.length s in
  let m := String.length p in
  (m <=? n)%nat && String.eqb (String.substring (n - m) m s) p.

(** [s.slice(start, end)]: a negative bound counts from the end, both
    bounds are clamped to the string, an empty range gives the empty string. *)
Definition slice (s : string) (start stop : Z) : string :=
  let n := len s in
  let from := if start <? 0 then Z.max (n + start) 0 else Z.min start n in
  let to := if stop <? 0 then Z.max (n + stop) 0 else Z.min stop n in
  String.substring (Z.to_nat from) (Z.to_nat (to - from)) s.

(** [s.substring(a, b)]: both bounds are clamped to [0, length] and
    swapped when [a > b]. *)
Definition substring (s : string) (a b : Z) : string :=
  let n := len s in
  let a' := Z.max 0 (Z.min a n) in
  let b' := Z.max 0 (Z.min b n) in
  let lo := Z.min a' b' in
  let hi := Z.max a' b' in
  String.substring (Z.to_nat lo) (Z.to_nat (hi - lo)) s.

Fixpoint indexOfFrom (c : ascii) (s : string) (i : Z) : Z :=
  match s with
  | EmptyString => -1
  | String d r => if Ascii.eqb d c then i else indexOfFrom c r (i + 1)
  end.

(** [s.indexOf(c)] for a one-character needle: the first position of [c],
    or [-1]. *)
Definition indexOf (s : string) (c : ascii) : Z := indexOfFrom c s 0.

(** [s.split(c)] for a one-character separator; [''.split(',')] is
    [['']]. *)
Fixpoint split (s : string) (sep : ascii) : list string :=
  match s with
  | EmptyString => [EmptyString]
  | String c r =>
      if Ascii.eqb c sep then EmptyString :: split r sep
      else match split r sep with
           | h :: t => String c h :: t
           | [] => [String c EmptyString]
           end
  end.

Definition between (lo hi c : ascii) : bool :=
  (nat_of_ascii lo <=? nat_of_ascii c)%nat
  && (nat_of_ascii c <=? nat_of_ascii hi)%nat.

Definition upperChar (c : ascii) : ascii :=
  if between "a" "z" c then ascii_of_nat (nat_of_ascii c - 32) else c.

(** [s.toUpperCase()], given on the ASCII letters.  In the range of code
    units modelled here no other character is mapped onto a character of
    a key of the keyword table or of the reserved word AS, so the
    comparisons the parser makes on upper-cased text agree with
    JavaScript's. *)
Fixpoint toUpperCase (s : string) : string :=
  match s with
  | EmptyString => EmptyString
  | String c r => String (upperChar c) (toUpperCase r)
  end.

(** The character class [[a-zA-Z0-9_]]. *)
Definition isWordChar (c : ascii) : bool :=
  between "a" "z" c || between "A" "Z" c || between "0" "9" c
  || Ascii.eqb c "_".

(** What [.] of a regular expression refuses: the line terminators. *)
Definition isLineTerminator (c : ascii) : bool :=
  Ascii.eqb c "010" || Ascii.eqb c "013".

Fixpoint allChars (p : ascii -> bool) (s : string) : bool :=
  match s with
  | EmptyString => true
  | String c r => p c && allChars p r
  end.

(** JavaScript values, as far as the parser builds them: objects are
    association lists in the order the literal lists the properties. *)
#[warning="-register-all"]
Inductive Value : Type :=
| VUndefined
| VNull
| VNaN
| VNum (n : Z)
| VBool (b : bool)
| VStr (s : string)
| VArr (elements : list Value)
| VObj (properties : list (string * Value)).

(** What a call can end in.  [TypeError] is what the runtime raises when a
    property of [undefined] or [null] is read or written; [Error] is
    [throw new Error(message)]; [ErrorJSON prefix v] is
    [throw new Error(prefix + JSON.stringify(v))]. *)
Inductive Exception : Type :=
| TypeError
| Error (message : string)
| ErrorJSON (prefix : string) (subject : Value).

(** [OutOfFuel] is not a JavaScript outcome: it marks a run of the model
    that was cut before the program finished. *)
Inductive Completion (A : Type) : Type :=
| Return (a : A)
| Throw (e : Exception)
| OutOfFuel.

Arguments Return {A} a.
Arguments Throw {A} e.
Arguments OutOfFuel {A}.

Definition bind {A B : Type} (c : Completion A) (k : A -> Completion B)
  : Completion B :=
  match c with
  | Return a => k a
  | Throw e => Throw e
  | OutOfFuel => OutOfFuel
  end.

Fixpoint lookupProp (k : string) (ps : list (string * Value)) : Value :=
  match ps with
  | [] => VUndefined
  | (k', v) :: r => if String.eqb k' k then v else lookupProp k r
  end.

(** [v.k]: reading a property of [undefined] or [null] throws, a missing
    property is [undefined]. *)
Definition getProp (v : Value) (k : string) : Completion Value :=
  match v with
  | VUndefined | VNull => Throw TypeError
  | VObj ps => Return (lookupProp k ps)
  | _ => Return VUndefined
  end.

(** [v?.k] *)
Definition getPropOpt (v : Value) (k : string) : Value :=
  match v with
  | VObj ps => lookupProp k ps
  | _ => VUndefined
  end.

(** [l[i]]: [undefined] (here [None]) outside the array. *)
Definition at_ {A : Type} (l : list A) (i : Z) : option A :=
  if i <? 0 then None else nth_error l (Z.to_nat i).

End JS.

Export JS.

Notation "x <- c ;; k" := (bind c (fun x => k))
  (at level 61, c at next level, right associativity).

Notation "' pat <- c ;; k" :=
  (bind c (fun x => match x with pat => k end))
  (at level 61, pat pattern, c at next level, right associativity).

(** ** [parser.mjs]: the classifier *)

Module Type_.
Definition EMPTY_SPACE := "empty_space".
Definition SELECT_STATEMENT := "select_statement".
Definition FROM_STATEMENT := "from_statement".
Definition WHERE_STATEMENT := "where_statement".
Definition ORDER_BY_STATEMENT := "order_by_statement".
Definition LIMIT_STATEMENT := "limit_statement".
Definition CONCAT_OPERATOR := "concat_operator".
Definition COMMA_DELIMITER := "comma_delimiter".
Definition STRING_LITERAL := "string_literal".
Definition FUNCTION_CALL := "function_call".
Definition UNKNOWN := "unknown".
Definition ASTERISK := "asterisk".
End Type_.

Module ReservedWord.
Definition AS := "AS".
End ReservedWord.

(** A classified token, [{ type, value }]. *)
Record Token : Type := mkToken { type : string; value : string }.

Definition tokenObj (t : Token) : Value :=
  VObj [("type", VStr (type t)); ("value", VStr (value t))].

(** The object [tokenTypes], as the lookup [tokenTypes[key]] sees it:
    [None] is [undefined].  The properties an object literal inherits
    (constructor, toString, ...) all contain a lower-case letter, and the
    key is always upper-cased, so only the own properties can be hit. *)
Definition tokenTypes (key : string) : option string :=
  if String.eqb key EmptyString then Some Type_.EMPTY_SPACE
  else if String.eqb key "," then Some Type_.COMMA_DELIMITER
  else if String.eqb key "SELECT" then Some Type_.SELECT_STATEMENT
  else if String.eqb key "FROM" then Some Type_.FROM_STATEMENT
  else if String.eqb key "WHERE" then Some Type_.WHERE_STATEMENT
  else if String.eqb key "ORDER BY" then Some Type_.ORDER_BY_STATEMENT
  else if String.eqb key "LIMIT" then Some Type_.LIMIT_STATEMENT
  else if String.eqb key "||" then Some Type_.CONCAT_OPERATOR
  else if String.eqb key "*" then Some Type_.ASTERISK
  else None.

(** [token.startsWith("'") && token.endsWith("'")] *)
Definition isString (token : string) : bool :=
  startsWith token "'" && endsWith token "'".

(** [token.match(re)], as a truth value, for the pattern: start of input,
    a group of one or more characters of [a-zA-Z0-9_], a left parenthesis,
    a group of any number of characters other than line terminators, a
    right parenthesis, end of input.  The name cannot contain a
    parenthesis, so it is the text before the first left parenthesis and
    must be non-empty; the right parenthesis that is matched is the last
    character of the token. *)
Definition isFunctionCall (token : string) : bool :=
  let i := indexOf token "(" in
  (1 <=? i)
  && allChars isWordChar (JS.substring token 0 i)
  && (i + 2 <=? len token)
  && endsWith token ")"
  && allChars (fun c => negb (isLineTerminator c))
       (JS.substring token (i + 1) (len token - 1)).

Definition classify (token : string) : Token :=
  if isString token then
    mkToken Type_.STRING_LITERAL (slice token 1 (-1))
  else if isFunctionCall token then
    mkToken Type_.FUNCTION_CALL token
  else
    mkToken
      (match tokenTypes (toUpperCase token) with
       | Some t => t
       | None => Type_.UNKNOWN
       end)
      token.

(** [lexicalAnalysis(tokens)] is [tokens.map(classify)]. *)
Definition lexicalAnalysis (tokens : list string) : list Token :=
  map classify tokens.

(** ** [parser.mjs]: the builder *)

(** [a === b] where one side is a string constant or another primitive.
    Objects and arrays are compared by identity in JavaScript; the parser
    never compares two of them, and the model answers [false] there. *)
Definition strictEq (a b : Value) : bool :=
  match a, b with
  | VUndefined, VUndefined => true
  | VNull, VNull => true
  | VNum x, VNum y => x =? y
  | VBool x, VBool y => Bool.eqb x y
  | VStr x, VStr y => String.eqb x y
  | _, _ => false
  end.

(** [l.some(p)], [l.filter(p)] and [l.map(f)] for callbacks that may
    throw: the first exception ends the traversal. *)
Fixpoint someM {A : Type} (p : A -> Completion bool) (l : list A)
  : Completion bool :=
  match l with
  | [] => Return false
  | x :: r => b <- p x ;; if b then Return true else someM p r
  end.

Fixpoint filterM {A : Type} (p : A -> Completion bool) (l : list A)
  : Completion (list A) :=
  match l with
  | [] => Return []
  | x :: r =>
      b <- p x ;; r' <- filterM p r ;;
      Return (if b then x :: r' else r')
  end.

Fixpoint mapM {A B : Type} (f : A -> Completion B) (l : list A)
  : Completion (list B) :=
  match l with
  | [] => Return []
  | x :: r => y <- f x ;; r' <- mapM f r ;; Return (y :: r')
  end.

Module Parser.

(** [const removeEmptySpace = token => token.type !== Type.EMPTY_SPACE] *)
Definition removeEmptySpace (token : Token) : bool :=
  negb (String.eqb (type token) Type_.EMPTY_SPACE).

(** [part => part.type === Type.CONCAT_OPERATOR] *)
Definition isConcatPart (part : Value) : Completion bool :=
  t <- getProp part "type" ;;
  Return (strictEq t (VStr Type_.CONCAT_OPERATOR)).

Definition isNotConcatPart (part : Value) : Completion bool :=
  t <- getProp part "type" ;;
  Return (negb (strictEq t (VStr Type_.CONCAT_OPERATOR))).

(** The function falls off its end, returning [undefined], when the
    parts hold no concat operator and are not exactly one. *)
Definition processColumnValueFromParts (columnParts : list Value)
  : Completion Value :=
  hasConcat <- someM isConcatPart columnParts ;;
  if hasConcat then
    elements <- filterM isNotConcatPart columnParts ;;
    Return (VObj [("type", VStr "concatenation");
                  ("elements", VArr elements)])
  else
    match columnParts with
    | [part] =>
        t <- getProp part "type" ;;
        v <- getProp part "value" ;;
        Return (VObj [("type", t); ("value", v)])
    | _ => Return VUndefined
    end.

Definition column (columnValue alias : Value) : Value :=
  VObj [("type", VStr "column"); ("columnValue", columnValue);
        ("alias", alias)].

(** The FUNCTION_CALL branch of [walk]. *)
Definition functionCallNode (value : string) : Value :=
  let functionName := JS.substring value 0 (indexOf value "(") in
  let functionArguments :=
    split (JS.substring value (indexOf value "(" + 1) (indexOf value ")"))
          "," in
  VObj [("type", VStr "function_call");
        ("name", VStr functionName);
        ("arguments", VArr (map VStr functionArguments))].

(** [walk(tokens, index)], with the [while] loop of its SELECT branch as
    [selectLoop]: [i], [columns], [columnParts] and [alias] are the
    loop's variables.  Each call and each iteration takes one unit of
    fuel. *)
Fixpoint walk (fuel : nat) (tokens : list Token) (index : Z) {struct fuel}
  : Completion Value :=
  match fuel with
  | O => OutOfFuel
  | S fuel' =>
    match at_ tokens index with
    | None => Throw TypeError
    | Some token =>
      if String.eqb (type token) Type_.FUNCTION_CALL then
        Return (functionCallNode (value token))
      else if String.eqb (type token) Type_.CONCAT_OPERATOR then
        Return (tokenObj token)
      else if String.eqb (type token) Type_.STRING_LITERAL then
        Return (VObj [("type", VStr "string_literal");
                      ("value", VStr (value token))])
      else if String.eqb (type token) Type_.ASTERISK then
        Return (VObj [("type", VStr "asterisk");
                      ("value", VStr (value token))])
      else if String.eqb (type token) Type_.FROM_STATEMENT then
        object <- walk fuel' tokens (index + 1) ;;
        Return (VObj [("type", VStr "from"); ("object", object)])
      else if String.eqb (type token) Type_.UNKNOWN then
        match at_ tokens (index - 1) with
        | None => Throw TypeError
        | Some lastToken =>
          if String.eqb (type lastToken) Type_.UNKNOWN
             && String.eqb (toUpperCase (value lastToken)) ReservedWord.AS
          then
            Return (VObj [("type", VStr "alias_value");
                          ("value", VStr (value token))])
          else if String.eqb (toUpperCase (value token)) ReservedWord.AS
          then
            v <- walk fuel' tokens (index + 1) ;;
            Return (VObj [("type", VStr "column_alias"); ("value", v)])
          else if String.eqb (type lastToken) Type_.FROM_STATEMENT then
            Return (VObj [("type", VStr "from_object");
                          ("value", VStr (value token))])
          else
            Return (VObj [("type", VStr "object_value");
                          ("value", VStr (value token))])
        end
      else if String.eqb (type token) Type_.SELECT_STATEMENT then
        selectLoop fuel' tokens (index + 1) [] [] VNull
      else if index <? Z.of_nat (length tokens) - 1 then
        walk fuel' tokens (index + 1)
      else
        Return VUndefined
    end
  end

with selectLoop (fuel : nat) (tokens : list Token) (i : Z)
       (columns columnParts : list Value) (alias : Value) {struct fuel}
  : Completion Value :=
  match fuel with
  | O => OutOfFuel
  | S fuel' =>
    match at_ tokens i with
    | None => Throw TypeError
    | Some token =>
      if negb (String.eqb (type token) Type_.FROM_STATEMENT) then
        if String.eqb (type token) Type_.COMMA_DELIMITER then
          columnValue <- processColumnValueFromParts columnParts ;;
          selectLoop fuel' tokens (i + 1)
            (columns ++ [column columnValue alias])%list [] VNull
        else if String.eqb (type token) Type_.UNKNOWN
                && String.eqb (toUpperCase (value token)) ReservedWord.AS
        then
          alias' <- walk fuel' tokens i ;;
          selectLoop fuel' tokens (i + 1) columns columnParts alias'
        else
          element <- walk fuel' tokens i ;;
          t <- getProp element "type" ;;
          selectLoop fuel' tokens (i + 1) columns
            (if negb (strictEq t (VStr "alias_value"))
             then (columnParts ++ [element])%list else columnParts)
            alias
      else
        columns' <-
          (if (0 <? Z.of_nat (length columnParts)) then
             columnValue <- processColumnValueFromParts columnParts ;;
             Return (columns ++ [column columnValue alias])%list
           else Return columns) ;;
        from <- walk fuel' tokens (i + 1) ;;
        Return (VObj [("type", VStr "select");
                      ("columns", VArr columns');
                      ("from", from)])
    end
  end.

(** Enough fuel for any run over [tokens]: a call at [index] nests at
    most two levels per remaining token. *)
Definition enoughFuel (tokens : list Token) : nat :=
  S (S (2 * length tokens)).

(** [syntaticAnalysis(tokens)] is
    [walk(tokens.filter(removeEmptySpace), 0)]. *)
Definition syntaticAnalysis (tokens : list Token) : Completion Value :=
  let tokens' := filter removeEmptySpace tokens in
  walk (enoughFuel tokens') tokens' 0.

(** The default export: [tokens => syntaticAnalysis(lexicalAnalysis(tokens))]. *)
Definition parse (tokens : list string) : Completion Value :=
  syntaticAnalysis (lexicalAnalysis tokens).

End Parser.

(** ** The SELECT module (second part of the sources)

    This module imports its constants ([Command], [Comparator],
    [Delimiter], [Operator], [Other], [ReservedWord]), the predicate
    [isQuote] and the dispatcher [walk] from files that are not part of
    the sources at hand.  The constants and predicates are taken as a
    record of parameters, the dispatcher as an argument. *)

Module Select.

(** Arithmetic on a cursor: [index + n] and [index - n].  A cursor is a
    number, or [undefined] when it was read from an object that has no
    such property; [undefined + n] is [NaN].  Strings, arrays and objects
    are not cursors and are not given their JavaScript sum here. *)
Definition jsAdd (v : Value) (n : Z) : Value :=
  match v with
  | VNum i => VNum (i + n)
  | VNull => VNum n
  | VBool b => VNum ((if b then 1 else 0) + n)
  | _ => VNaN
  end.

Definition jsSub (v : Value) (n : Z) : Value :=
  match v with
  | VNum i => VNum (i - n)
  | VNull => VNum (- n)
  | VBool b => VNum ((if b then 1 else 0) - n)
  | _ => VNaN
  end.

(** [tokens[index]] *)
Definition tokenAt (tokens : list Token) (index : Value) : option Token :=
  match index with
  | VNum i => at_ tokens i
  | _ => None
  end.

(** [token?.type] and the token as a value. *)
Definition typeOpt (t : option Token) : Value :=
  match t with
  | Some t => VStr (type t)
  | None => VUndefined
  end.

Definition optTokenObj (t : option Token) : Value :=
  match t with
  | Some t => tokenObj t
  | None => VUndefined
  end.

(** [parts[i]] on an array of values. *)
Definition elemAt (l : list Value) (i : Z) : Value :=
  match at_ l i with
  | Some v => v
  | None => VUndefined
  end.

(** [l.slice(start, end)] on arrays, with the same clamping as on
    strings. *)
Definition arraySlice {A : Type} (l : list A) (start stop : Z) : list A :=
  let n := Z.of_nat (length l) in
  let from := if start <? 0 then Z.max (n + start) 0 else Z.min start n in
  let to := if stop <? 0 then Z.max (n + stop) 0 else Z.min stop n in
  firstn (Z.to_nat (to - from)) (skipn (Z.to_nat from) l).

Fixpoint arrayIndexOfFrom (l : list Value) (v : Value) (i : Z) : Z :=
  match l with
  | [] => -1
  | x :: r => if strictEq x v then i else arrayIndexOfFrom r v (i + 1)
  end.

(** [l.indexOf(v)] for a primitive [v]. *)
Definition arrayIndexOf (l : list Value) (v : Value) : Z :=
  arrayIndexOfFrom l v 0.

(** The imported names.  The constants are the strings that tag tokens
    and nodes; [Operator_CONCAT_key] stands for
    [Operator.getKeyFromValue(Operator.CONCAT)], and likewise for the
    delimiters' keys.  The predicates are given by their truth value on
    what the module passes them: a token or [undefined], or a token's
    type or [undefined]. *)
Record Constants : Type := {
  Command_SELECT : string;
  Command_AS : string;
  ReservedWord_UNION : string;
  ReservedWord_ALL : string;
  ReservedWord_WHERE : string;
  ReservedWord_FROM : string;
  ReservedWord_AS : string;
  Other_UNION_ALL : string;
  Other_IDENTIFIER : string;
  Other_CONCATENATION : string;
  Other_FUNCTION_CALL : string;
  Other_PARENTHESIS : string;
  Other_AS_ALIAS : string;
  Other_SHORT_ALIAS : string;
  Operator_CONCAT_key : string;
  Delimiter_COMMA_key : string;
  Delimiter_LEFT_PARENTHESIS_key : string;
  Delimiter_RIGHT_PARENTHESIS : string;
  ReservedWord_isEndOfWhere : option Token -> bool;
  Operator_isLogical : Value -> bool;
  Comparator_is : Value -> bool;
  isQuote : option Token -> bool
}.

Section Module_.

Variable K : Constants.

(** The imported [walk(tokens, index)]: it answers an object
    [{ value, index }]. *)
Variable walk : list Token -> Value -> Completion Value.

Definition isUnion (tokens : list Token) (index : Value) : bool :=
  strictEq (VStr (ReservedWord_UNION K)) (typeOpt (tokenAt tokens index)).

Definition getUnionType (tokens : list Token) (index : Value)
  : Completion Value :=
  let next := tokenAt tokens (jsAdd index 1) in
  if isUnion tokens index
     && strictEq (VStr (ReservedWord_ALL K)) (typeOpt next)
  then Return (VStr (Other_UNION_ALL K))
  else if isUnion tokens index then Return (VStr (ReservedWord_UNION K))
  else Throw (Error "Union statement not found in current query").

Definition getIndexNextSelect (tokens : list Token) (index : Value)
  : Completion Value :=
  unionType <- getUnionType tokens index ;;
  if strictEq unionType (VStr (ReservedWord_UNION K)) then
    Return (jsAdd index 1)
  else if strictEq unionType (VStr (Other_UNION_ALL K)) then
    Return (jsAdd index 2)
  else Return VUndefined.

Definition isWhere (tokens : list Token) (index : Value) : bool :=
  strictEq (typeOpt (tokenAt tokens index)) (VStr (ReservedWord_WHERE K)).

(** [walkWhereParts]: the [while] loop with its variables [index] and
    [comparation]; the recursive call on a logical operator starts a new
    loop with [comparation] undefined. *)
Fixpoint walkWherePartsLoop (fuel : nat) (tokens : list Token)
         (index comparation : Value) {struct fuel} : Completion Value :=
  match fuel with
  | O => OutOfFuel
  | S fuel' =>
    if negb (ReservedWord_isEndOfWhere K (tokenAt tokens index)) then
      if Operator_isLogical K (typeOpt (tokenAt tokens index)) then
        match tokenAt tokens index with
        | None => Throw TypeError
        | Some operator =>
            rest <- walkWherePartsLoop fuel' tokens (jsAdd index 1)
                      VUndefined ;;
            right <- getProp rest "value" ;;
            Return (VObj [("type", VStr (type operator));
                          ("left", comparation);
                          ("right", right)])
        end
      else if Comparator_is K (typeOpt (tokenAt tokens (jsAdd index 1)))
      then
        let rightIndex :=
          if isQuote K (tokenAt tokens (jsAdd index 2)) then 3 else 2 in
        w <- walk tokens (jsAdd index rightIndex) ;;
        right <- getProp w "value" ;;
        match tokenAt tokens (jsAdd index 1) with
        | None => Throw TypeError
        | Some comparator =>
            walkWherePartsLoop fuel' tokens
              (jsAdd index (if rightIndex =? 3 then 4 else 3))
              (VObj [("type", VStr (type comparator));
                     ("left", optTokenObj (tokenAt tokens index));
                     ("right", right)])
        end
      else
        walkWherePartsLoop fuel' tokens (jsAdd index 1) comparation
    else
      Return (VObj [("value", comparation); ("index", index)])
  end.

Definition walkWhereParts (fuel : nat) (tokens : list Token)
           (index : Value) : Completion Value :=
  walkWherePartsLoop fuel tokens index VUndefined.

(** [value.type === Operator.getKeyFromValue(Operator.CONCAT)] *)
Definition isConcat (value : Value) : Completion bool :=
  t <- getProp value "type" ;;
  Return (strictEq t (VStr (Operator_CONCAT_key K))).

(** The loop of [splitTokensByConcatOperator] over [arrays], [arr] and
    [index]. *)
Fixpoint splitLoop (fuel : nat) (arrays : list (list Value))
         (arr : list Value) (index : Z) {struct fuel}
  : Completion (list (list Value)) :=
  match fuel with
  | O => OutOfFuel
  | S fuel' =>
    if index <? Z.of_nat (length arr) then
      b <- isConcat (elemAt arr index) ;;
      if b then
        splitLoop fuel' (arrays ++ [arraySlice arr 0 index])%list
          (arraySlice arr (index + 1) (Z.of_nat (length arr))) 0
      else
        splitLoop fuel' arrays arr (index + 1)
    else
      Return (arrays ++ [arr])%list
  end.

(** Every iteration either moves [index] forward or shortens [arr], so
    [arr.length + 1] iterations are enough. *)
Definition splitTokensByConcatOperator (arr : list Value)
  : Completion (list (list Value)) :=
  splitLoop (S (length arr)) [] arr 0.

(** [processColumn({ parts, alias })].  The search
    [parts.indexOf({ type, value })] of the parenthesis branch looks for
    an object created on the spot, which no element is identical to: it
    answers [-1]. *)
Fixpoint processColumn (fuel : nat) (parts : list Value) (alias : Value)
         {struct fuel} : Completion Value :=
  match fuel with
  | O => OutOfFuel
  | S fuel' =>
    hasConcat <- someM isConcat parts ;;
    if hasConcat then
      subParts <- splitTokensByConcatOperator parts ;;
      subColumns <-
        mapM (fun parts => processColumn fuel' parts VUndefined) subParts ;;
      Return (VObj [("type", VStr (Other_CONCATENATION K));
                    ("value", VArr subColumns);
                    ("alias", alias)])
    else if (3 <=? Z.of_nat (length parts))
            && strictEq (getPropOpt (elemAt parts 0) "type")
                        (VStr (Other_IDENTIFIER K))
            && strictEq (getPropOpt (elemAt parts 1) "type")
                        (VStr (Delimiter_LEFT_PARENTHESIS_key K))
    then
      let args :=
        arraySlice parts 2
          (arrayIndexOf parts (VStr (Delimiter_RIGHT_PARENTHESIS K))) in
      name <- getProp (elemAt parts 0) "value" ;;
      Return (VObj [("type", VStr (Other_FUNCTION_CALL K));
                    ("value", VObj [("name", name);
                                    ("arguments", VArr args)]);
                    ("alias", alias)])
    else if strictEq (getPropOpt (elemAt parts 0) "type")
                     (VStr (Delimiter_LEFT_PARENTHESIS_key K))
    then
      let subTokens := arraySlice parts 1 (-1) in
      Return (VObj [("type", VStr (Other_PARENTHESIS K));
                    ("value", elemAt subTokens 0);
                    ("alias", alias)])
    else if Z.of_nat (length parts) =? 1 then
      t <- getProp (elemAt parts 0) "type" ;;
      v <- getProp (elemAt parts 0) "value" ;;
      Return (VObj [("type", t); ("value", v); ("alias", alias)])
    else
      Throw (ErrorJSON "Unsupported column type: " (VArr parts))
  end.

(** [getObjectAlias(tokens, index)]; the function falls off its end,
    returning [undefined], when there is no alias. *)
Definition getObjectAlias (tokens : list Token) (index : Value) : Value :=
  if strictEq (typeOpt (tokenAt tokens index)) (VStr (Command_AS K)) then
    VObj [("type", VStr (Other_AS_ALIAS K));
          ("value", optTokenObj (tokenAt tokens (jsAdd index 1)))]
  else if strictEq (typeOpt (tokenAt tokens index))
                   (VStr (Other_IDENTIFIER K))
          && strictEq (typeOpt (tokenAt tokens (jsSub index 2)))
                      (VStr (ReservedWord_FROM K))
  then
    VObj [("type", VStr (Other_SHORT_ALIAS K));
          ("value", match tokenAt tokens index with
                    | Some t => VStr (value t)
                    | None => VUndefined
                    end)]
  else VUndefined.

(** [buildColumn()]: [columnTmp] is [undefined] ([None]) or the object
    [{ columns, alias }], here the pair of its two properties. *)
Definition buildColumn (fuel : nat) (columns : list Value)
           (columnTmp : option (list Value * Value))
  : Completion (list Value) :=
  match columnTmp with
  | None => Throw TypeError
  | Some (parts, alias) =>
      c <- processColumn fuel parts alias ;;
      Return (columns ++ [c])%list
  end.

(** The [while] loop of [walkColumns] over [index], [columns] and
    [columnTmp]; it answers the columns and the cursor, which is left on
    the FROM token. *)
Fixpoint walkColumnsLoop (fuel : nat) (tokens : list Token)
         (index : Value) (columns : list Value)
         (columnTmp : option (list Value * Value)) {struct fuel}
  : Completion (list Value * Value) :=
  match fuel with
  | O => OutOfFuel
  | S fuel' =>
    let ty := typeOpt (tokenAt tokens index) in
    if negb (strictEq ty (VStr (ReservedWord_FROM K))) then
      if strictEq ty (VStr (Delimiter_COMMA_key K)) then
        columns' <- buildColumn fuel' columns columnTmp ;;
        walkColumnsLoop fuel' tokens (jsAdd index 1) columns' None
      else if strictEq ty (VStr (ReservedWord_AS K)) then
        let index' := jsAdd index 1 in
        w <- walk tokens index' ;;
        v <- getProp w "value" ;;
        alias <- getProp v "value" ;;
        match columnTmp with
        | None => Throw TypeError
        | Some (parts, _) =>
            walkColumnsLoop fuel' tokens (jsAdd index' 1) columns
              (Some (parts, alias))
        end
      else if negb (isQuote K (tokenAt tokens index)) then
        w <- walk tokens index ;;
        column <- getProp w "value" ;;
        asd <- getProp w "index" ;;
        walkColumnsLoop fuel' tokens (jsAdd asd 1) columns
          (match columnTmp with
           | None => Some ([column], VUndefined)
           | Some (parts, alias) => Some ((parts ++ [column])%list, alias)
           end)
      else
        walkColumnsLoop fuel' tokens (jsAdd index 1) columns columnTmp
    else
      columns' <- buildColumn fuel' columns columnTmp ;;
      Return (columns', index)
  end.

Definition walkColumns (fuel : nat) (tokens : list Token) (index : Value)
  : Completion (list Value * Value) :=
  walkColumnsLoop fuel tokens (jsAdd index 1) [] None.

Definition walkFrom (tokens : list Token) (index : Value)
  : Completion (Value * Value) :=
  let index1 := jsAdd index 1 in
  w <- walk tokens index1 ;;
  from <- getProp w "value" ;;
  let index2 := jsAdd index1 1 in
  let found := getObjectAlias tokens index2 in
  let alias := getPropOpt found "value" in
  let aliasType := getPropOpt found "type" in
  let index3 :=
    if strictEq aliasType (VStr (Other_AS_ALIAS K)) then jsAdd index2 2
    else if strictEq aliasType (VStr (Other_SHORT_ALIAS K))
         then jsAdd index2 1
    else index2 in
  source <- getProp from "value" ;;
  Return (VObj [("type", VStr (Other_IDENTIFIER K));
                ("value", source);
                ("alias", alias)],
          index3).

Definition walkWhere (fuel : nat) (tokens : list Token) (index : Value)
  : Completion (Value * Value) :=
  r <- walkWhereParts fuel tokens (jsAdd index 1) ;;
  value <- getProp r "value" ;;
  whereIndex <- getProp r "index" ;;
  Return (VObj [("type", VStr (ReservedWord_WHERE K)); ("value", value)],
          whereIndex).

(** The default export, [(tokens, index) => ...]. *)
Definition select (fuel : nat) (tokens : list Token) (index : Value)
  : Completion Value :=
  '(columns, index1) <- walkColumns fuel tokens index ;;
  '(from, index2) <- walkFrom tokens index1 ;;
  '(where_, index3) <-
    (if isWhere tokens index2 then walkWhere fuel tokens index2
     else Return (VUndefined, index2)) ;;
  let selectNode :=
    VObj [("type", VStr (Command_SELECT K));
          ("value", VObj [("columns", VArr columns);
                          ("from", from);
                          ("where", where_)])] in
  let currentSelect :=
    VObj [("value", selectNode); ("index", jsSub index3 1)] in
  if isUnion tokens index3 then
    next <- getIndexNextSelect tokens index3 ;;
    w <- walk tokens next ;;
    nextSelect <- getProp w "value" ;;
    unionType <- getUnionType tokens index3 ;;
    Return (VObj [("type", unionType);
                  ("value", VObj [("left", selectNode);
                                  ("right", nextSelect)])])
  else
    Return currentSelect.

End Module_.

(** Modelled from the spec: the dispatcher [walk] of the newer
    [parser.mjs], which this module imports and which is not part of the
    sources.  The spec has the builder dispatch on the type of the current
    token and answer the parsed node with a position; the module's own
    uses fix the convention that the position is the last one consumed.
    A SELECT keyword is handed to the module's default export, whose
    answer is passed on unchanged; any other token is a leaf and is its
    own node; a position outside the sequence has no type to dispatch
    on. *)
Fixpoint walkModel (K : Constants) (fuel : nat) (tokens : list Token)
         (index : Value) {struct fuel} : Completion Value :=
  match fuel with
  | O => OutOfFuel
  | S fuel' =>
    match tokenAt tokens index with
    | None => Throw TypeError
    | Some token =>
        if String.eqb (type token) (Command_SELECT K) then
          select K (walkModel K fuel') fuel' tokens index
        else
          Return (VObj [("value", tokenObj token); ("index", index)])
    end
  end.

Definition memberOf (names : list string) (v : Value) : bool :=
  match v with
  | VStr s => existsb (String.eqb s) names
  | _ => false
  end.

(** Modelled from the spec: the constants modules, which are not part of
    the sources.  Tokens are tagged with the name of their kind; the
    logical operators are AND and OR, the comparators are tagged with
    their own text, a quote mark is a token of its own, and a WHERE
    clause ends at the end of the input, at a set-operation keyword or at
    the next clause keyword. *)
Definition specConstants : Constants := {|
  Command_SELECT := "SELECT";
  Command_AS := "AS";
  ReservedWord_UNION := "UNION";
  ReservedWord_ALL := "ALL";
  ReservedWord_WHERE := "WHERE";
  ReservedWord_FROM := "FROM";
  ReservedWord_AS := "AS";
  Other_UNION_ALL := "UNION_ALL";
  Other_IDENTIFIER := "IDENTIFIER";
  Other_CONCATENATION := "CONCATENATION";
  Other_FUNCTION_CALL := "FUNCTION_CALL";
  Other_PARENTHESIS := "PARENTHESIS";
  Other_AS_ALIAS := "AS_ALIAS";
  Other_SHORT_ALIAS := "SHORT_ALIAS";
  Operator_CONCAT_key := "CONCAT";
  Delimiter_COMMA_key := "COMMA";
  Delimiter_LEFT_PARENTHESIS_key := "LEFT_PARENTHESIS";
  Delimiter_RIGHT_PARENTHESIS := ")";
  ReservedWord_isEndOfWhere := fun t =>
    match t with
    | None => true
    | Some t =>
        existsb (String.eqb (type t)) ["UNION"; "ORDER BY"; "LIMIT"]
    end;
  Operator_isLogical := memberOf ["AND"; "OR"];
  Comparator_is := memberOf ["="; "<>"; "!="; "<"; ">"; "<="; ">="];
  isQuote := fun t =>
    match t with
    | None => false
    | Some t => String.eqb (type t) "QUOTE"
    end
|}.

End Select.

(** ** Vocabulary of the statements *)

(** A call that can only fail with the runtime's [TypeError]. *)
Definition onlyTypeError {A : Type} (c : Completion A) : Prop :=
  forall e, c = Throw e -> e = TypeError.

(** A run that ends in [TypeError] unless it is cut first. *)
Definition failsOrCut {A : Type} (c : Completion A) : Prop :=
  c = Throw TypeError \/ c = OutOfFuel.

(** No FROM keyword at position [i] or later. *)
Definition noFromFrom (tokens : list Token) (i : Z) : Prop :=
  forall j t, i <= j -> at_ tokens j = Some t ->
              type t <> Type_.FROM_STATEMENT.

(** The number of tokens from position [i] on. *)
Definition remaining (tokens : list Token) (i : Z) : nat :=
  Z.to_nat (Z.of_nat (length tokens) - i).

(** [c] does not occur in [s]. *)
Definition noChar (c : ascii) (s : string) : bool :=
  allChars (fun d => negb (Ascii.eqb d c)) s.

(** Neither [undefined] nor [null]: a value whose properties can be
    read. *)
Definition defined (v : Value) : bool :=
  match v with
  | VUndefined | VNull => false
  | _ => true
  end.

(** The groups between the elements that satisfy [p], those elements
    left out: [k] of them give [k + 1] groups. *)
Fixpoint splitOn {A : Type} (p : A -> bool) (l : list A) : list (list A) :=
  match l with
  | [] => [[]]
  | x :: r =>
      if p x then [] :: splitOn p r
      else match splitOn p r with
           | g :: gs => (x :: g) :: gs
           | [] => [[x]]
           end
  end.

Definition prependToFirst {A : Type} (pre : list A) (groups : list (list A))
  : list (list A) :=
  match groups with
  | g :: gs => (pre ++ g)%list :: gs
  | [] => [pre]
  end.

(** A part that is a concat operator for the SELECT module. *)
Definition isOperator (K : Select.Constants) (v : Value) : bool :=
  strictEq (getPropOpt v "type") (VStr (Select.Operator_CONCAT_key K)).

(** Nodes of [parser.mjs]. *)
Definition objectValue (name : string) : Value :=
  VObj [("type", VStr "object_value"); ("value", VStr name)].

Definition concatenation (elements : list Value) : Value :=
  VObj [("type", VStr "concatenation"); ("elements", VArr elements)].

Definition selectNode (columnValue : Value) (source : string) : Value :=
  VObj [("type", VStr "select");
        ("columns", VArr [Parser.column columnValue VNull]);
        ("from", VObj [("type", VStr "from_object");
                       ("value", VStr source)])].

Definition selectStarFromT : Value :=
  selectNode (VObj [("type", VStr "asterisk"); ("value", VStr "*")]) "t".

(** Classified tokens for the SELECT module, tagged as [specConstants]
    has them. *)
Definition identifier (name : string) : Token := mkToken "IDENTIFIER" name.

Definition keyword (name : string) : Token := mkToken name name.

Definition selectStar (source : string) : list Token :=
  [keyword "SELECT"; mkToken "ASTERISK" "*"; keyword "FROM";
   identifier source].

(** SELECT * FROM t WHERE x = 1 AND y = 2 *)
Definition whereQuery : list Token :=
  (selectStar "t"
   ++ [keyword "WHERE";
       identifier "x"; keyword "="; mkToken "NUMBER" "1";
       keyword "AND";
       identifier "y"; keyword "="; mkToken "NUMBER" "2"])%list.

(** ... WHERE x = 1 AND y = 2 OR z = 3 *)
Definition whereQuery2 : list Token :=
  (whereQuery
   ++ [keyword "OR";
       identifier "z"; keyword "="; mkToken "NUMBER" "3"])%list.

Definition unionAll : list Token := [keyword "UNION"; keyword "ALL"].

(** SELECT * FROM a UNION ALL SELECT * FROM b UNION ALL SELECT * FROM c *)
Definition threeSelects : list Token :=
  (selectStar "a" ++ unionAll ++ selectStar "b" ++ unionAll
   ++ selectStar "c")%list.

(** SELECT a || b FROM t, and the same with the right operand missing. *)
Definition concatColumn : list Token :=
  [keyword "SELECT"; identifier "a"; mkToken "CONCAT" "||"; identifier "b";
   keyword "FROM"; identifier "t"].

Definition trailingConcatColumn : list Token :=
  [keyword "SELECT"; identifier "a"; mkToken "CONCAT" "||";
   keyword "FROM"; identifier "t"].

(** Nodes of the SELECT module. *)
Definition comparison (op : string) (l r : Token) : Value :=
  VObj [("type", VStr op); ("left", tokenObj l); ("right", tokenObj r)].

Definition selectStarWhere (source : string) (predicate : Value) : Value :=
  VObj [("type", VStr "SELECT");
        ("value",
         VObj [("columns",
                VArr [VObj [("type", VStr "ASTERISK"); ("value", VStr "*");
                            ("alias", VUndefined)]]);
               ("from",
                VObj [("type", VStr "IDENTIFIER"); ("value", VStr source);
                      ("alias", VUndefined)]);
               ("where", predicate)])].

Definition selectStarNode (source : string) : Value :=
  selectStarWhere source VUndefined.

(** *** Text the pipeline of [parser.mjs] is given *)

(** [l.join(sep)] *)
Fixpoint join (l : list string) (sep : string) : string :=
  match l with
  | [] => EmptyString
  | [x] => x
  | x :: r => x ++ sep ++ join r sep
  end.

(** The text of a call: the name, then the arguments between parentheses
    and separated by commas. *)
Definition functionCallText (name : string) (args : list string) : string :=
  name ++ String "(" (join args "," ++ ")").

(** An argument without comma, right parenthesis or line terminator. *)
Definition plainArgument (arg : string) : bool :=
  noChar "," arg && noChar ")" arg
  && allChars (fun c => negb (isLineTerminator c)) arg.

(** A string other than the empty one. *)
Definition nonEmpty (s : string) : bool := negb (String.eqb s EmptyString).

(** The tokens no branch of [walk] handles: it moves on to the next
    one. *)
Definition isSkipped (t : Token) : bool :=
  existsb (String.eqb (type t))
    [Type_.WHERE_STATEMENT; Type_.ORDER_BY_STATEMENT; Type_.LIMIT_STATEMENT;
     Type_.COMMA_DELIMITER].

(** The word AS in any case, and a word the classifier leaves Unknown that
    is not AS. *)
Definition isAs (text : string) : bool :=
  String.eqb (toUpperCase text) ReservedWord.AS.

Definition isIdentifier (text : string) : bool :=
  String.eqb (type (classify text)) Type_.UNKNOWN && negb (isAs text).

(** A column as it is written: a name and, if it has one, the word AS and
    an alias. *)
Definition ColumnText : Type := (string * option (string * string))%type.

Definition columnText (c : ColumnText) : list string :=
  match c with
  | (name, None) => [name]
  | (name, Some (asWord, alias)) => [name; asWord; alias]
  end.

(** The columns of a SELECT, separated by commas. *)
Fixpoint columnListText (cs : list ColumnText) : list string :=
  match cs with
  | [] => []
  | [c] => columnText c
  | c :: r => (columnText c ++ "," :: columnListText r)%list
  end.

Definition wellFormedColumn (c : ColumnText) : bool :=
  match c with
  | (name, None) => isIdentifier name
  | (name, Some (asWord, alias)) =>
      isIdentifier name && isAs asWord && isIdentifier alias
  end.

(** The nodes [walk] builds for an alias, a column and a SELECT. *)
Definition aliasNode (alias : string) : Value :=
  VObj [("type", VStr "column_alias");
        ("value", VObj [("type", VStr "alias_value");
                        ("value", VStr alias)])].

Definition columnNode (c : ColumnText) : Value :=
  match c with
  | (name, None) => Parser.column (objectValue name) VNull
  | (name, Some (_, alias)) =>
      Parser.column (objectValue name) (aliasNode alias)
  end.

Definition selectOf (columns : list Value) (source : string) : Value :=
  VObj [("type", VStr "select");
        ("columns", VArr columns);
        ("from", VObj [("type", VStr "from_object");
                       ("value", VStr source)])].

(** The same columns once classified. *)
Definition unknown (text : string) : Token := mkToken Type_.UNKNOWN text.

Definition commaToken : Token := mkToken Type_.COMMA_DELIMITER ",".

Definition columnTokens (c : ColumnText) : list Token :=
  map unknown (columnText c).

Fixpoint columnListTokens (cs : list ColumnText) : list Token :=
  match cs with
  | [] => []
  | [c] => columnTokens c
  | c :: r => (columnTokens c ++ commaToken :: columnListTokens r)%list
  end.

(** [walk] and the loop of its SELECT branch with the cursor at the end
    of [pre], in front of [suffix]. *)
Definition walkAt (fuel : nat) (pre suffix : list Token) : Completion Value :=
  Parser.walk fuel (pre ++ suffix) (Z.of_nat (length pre)).

Definition loopAt (fuel : nat) (pre suffix : list Token)
           (columns columnParts : list Value) (alias : Value)
  : Completion Value :=
  Parser.selectLoop fuel (pre ++ suffix) (Z.of_nat (length pre))
    columns columnParts alias.

(** A token after which an identifier is an ordinary value: neither the
    word AS nor FROM. *)
Definition plainBefore (l : Token) : Prop :=
  String.eqb (type l) Type_.UNKNOWN && isAs (value l) = false
  /\ String.eqb (type l) Type_.FROM_STATEMENT = false.

(** *** Inputs of the SELECT module *)

(** [throw new Error('Union statement not found in current query')] *)
Definition unionNotFound : Exception :=
  Error "Union statement not found in current query".

(** The parts of the column a || b. *)
Definition concatParts : list Value :=
  [tokenObj (identifier "a"); tokenObj (mkToken "CONCAT" "||");
   tokenObj (identifier "b")].

(** FROM t AS u *)
Definition fromWithAlias : list Token :=
  [keyword "FROM"; identifier "t"; keyword "AS"; identifier "u"].

(** SELECT * FROM t WHERE x = 1 *)
Definition oneComparison : list Token :=
  (selectStar "t"
   ++ [keyword "WHERE"; identifier "x"; keyword "="; mkToken "NUMBER" "1"])%list.

(** * Properties *)

(** ** Exceptions of the builder *)

Lemma onlyTypeError_Return {A : Type} (a : A) : onlyTypeError (Return a).
Proof. intros e H; discriminate H. Qed.

Lemma onlyTypeError_TypeError {A : Type} :
  onlyTypeError (@Throw A TypeError).
Proof. intros e H; injection H as <-; reflexivity. Qed.

Lemma onlyTypeError_OutOfFuel {A : Type} : onlyTypeError (@OutOfFuel A).
Proof. intros e H; discriminate H. Qed.

Lemma onlyTypeError_bind {A B : Type} (c : Completion A)
      (k : A -> Completion B) :
  onlyTypeError c -> (forall a, onlyTypeError (k a)) ->
  onlyTypeError (bind c k).
Proof.
  intros Hc Hk. destruct c as [a | e | ]; simpl.
  - apply Hk.
  - rewrite (Hc e eq_refl). apply onlyTypeError_TypeError.
  - apply onlyTypeError_OutOfFuel.
Qed.

Lemma onlyTypeError_getProp v k : onlyTypeError (getProp v k).
Proof.
  destruct v; simpl;
    first [apply onlyTypeError_Return | apply onlyTypeError_TypeError].
Qed.

Lemma onlyTypeError_if {A : Type} (b : bool) (c d : Completion A) :
  onlyTypeError c -> onlyTypeError d -> onlyTypeError (if b then c else d).
Proof. destruct b; auto. Qed.

Lemma onlyTypeError_someM {A : Type} (p : A -> Completion bool) l :
  (forall x, onlyTypeError (p x)) -> onlyTypeError (someM p l).
Proof.
  intros Hp. induction l as [| x r IH]; simpl.
  - apply onlyTypeError_Return.
  - apply onlyTypeError_bind; [apply Hp |].
    intros []; [apply onlyTypeError_Return | exact IH].
Qed.

Lemma onlyTypeError_filterM {A : Type} (p : A -> Completion bool) l :
  (forall x, onlyTypeError (p x)) -> onlyTypeError (filterM p l).
Proof.
  intros Hp. induction l as [| x r IH]; simpl.
  - apply onlyTypeError_Return.
  - apply onlyTypeError_bind; [apply Hp |]. intros b.
    apply onlyTypeError_bind; [exact IH |]. intros r'.
    apply onlyTypeError_Return.
Qed.

Create HintDb js discriminated.
#[export] Hint Resolve onlyTypeError_Return onlyTypeError_TypeError
  onlyTypeError_OutOfFuel onlyTypeError_getProp : js.

Lemma onlyTypeError_processColumnValueFromParts parts :
  onlyTypeError (Parser.processColumnValueFromParts parts).
Proof.
  unfold Parser.processColumnValueFromParts.
  apply onlyTypeError_bind.
  - apply onlyTypeError_someM. intros x. unfold Parser.isConcatPart.
    apply onlyTypeError_bind; auto with js.
  - intros [].
    + apply onlyTypeError_bind.
      * apply onlyTypeError_filterM. intros x. unfold Parser.isNotConcatPart.
        apply onlyTypeError_bind; auto with js.
      * auto with js.
    + destruct parts as [| p [| q r]]; auto with js.
      repeat (apply onlyTypeError_bind; [auto with js | intro]).
      auto with js.
Qed.

(** The two functions, one step unfolded. *)
Lemma walk_S fuel tokens index :
  Parser.walk (S fuel) tokens index =
  match at_ tokens index with
  | None => Throw TypeError
  | Some token =>
      if String.eqb (type token) Type_.FUNCTION_CALL then
        Return (Parser.functionCallNode (value token))
      else if String.eqb (type token) Type_.CONCAT_OPERATOR then
        Return (tokenObj token)
      else if String.eqb (type token) Type_.STRING_LITERAL then
        Return (VObj [("type", VStr "string_literal");
                      ("value", VStr (value token))])
      else if String.eqb (type token) Type_.ASTERISK then
        Return (VObj [("type", VStr "asterisk");
                      ("value", VStr (value token))])
      else if String.eqb (type token) Type_.FROM_STATEMENT then
        object <- Parser.walk fuel tokens (index + 1) ;;
        Return (VObj [("type", VStr "from"); ("object", object)])
      else if String.eqb (type token) Type_.UNKNOWN then
        match at_ tokens (index - 1) with
        | None => Throw TypeError
        | Some lastToken =>
          if String.eqb (type lastToken) Type_.UNKNOWN
             && String.eqb (toUpperCase (value lastToken)) ReservedWord.AS
          then
            Return (VObj [("type", VStr "alias_value");
                          ("value", VStr (value token))])
          else if String.eqb (toUpperCase (value token)) ReservedWord.AS
          then
            v <- Parser.walk fuel tokens (index + 1) ;;
            Return (VObj [("type", VStr "column_alias"); ("value", v)])
          else if String.eqb (type lastToken) Type_.FROM_STATEMENT then
            Return (VObj [("type", VStr "from_object");
                          ("value", VStr (value token))])
          else
            Return (VObj [("type", VStr "object_value");
                          ("value", VStr (value token))])
        end
      else if String.eqb (type token) Type_.SELECT_STATEMENT then
        Parser.selectLoop fuel tokens (index + 1) [] [] VNull
      else if index <? Z.of_nat (length tokens) - 1 then
        Parser.walk fuel tokens (index + 1)
      else
        Return VUndefined
  end.
Proof. reflexivity. Qed.

Lemma selectLoop_S fuel tokens i columns columnParts alias :
  Parser.selectLoop (S fuel) tokens i columns columnParts alias =
  match at_ tokens i with
  | None => Throw TypeError
  | Some token =>
      if negb (String.eqb (type token) Type_.FROM_STATEMENT) then
        if String.eqb (type token) Type_.COMMA_DELIMITER then
          columnValue <- Parser.processColumnValueFromParts columnParts ;;
          Parser.selectLoop fuel tokens (i + 1)
            (columns ++ [Parser.column columnValue alias])%list [] VNull
        else if String.eqb (type token) Type_.UNKNOWN
                && String.eqb (toUpperCase (value token)) ReservedWord.AS
        then
          alias' <- Parser.walk fuel tokens i ;;
          Parser.selectLoop fuel tokens (i + 1) columns columnParts alias'
        else
          element <- Parser.walk fuel tokens i ;;
          t <- getProp element "type" ;;
          Parser.selectLoop fuel tokens (i + 1) columns
            (if negb (strictEq t (VStr "alias_value"))
             then (columnParts ++ [element])%list else columnParts)
            alias
      else
        columns' <-
          (if (0 <? Z.of_nat (length columnParts)) then
             columnValue <- Parser.processColumnValueFromParts columnParts ;;
             Return (columns ++ [Parser.column columnValue alias])%list
           else Return columns) ;;
        from <- Parser.walk fuel tokens (i + 1) ;;
        Return (VObj [("type", VStr "select");
                      ("columns", VArr columns');
                      ("from", from)])
  end.
Proof. reflexivity. Qed.

Ltac ote :=
  repeat first
    [ apply onlyTypeError_Return
    | apply onlyTypeError_TypeError
    | apply onlyTypeError_OutOfFuel
    | apply onlyTypeError_getProp
    | apply onlyTypeError_processColumnValueFromParts
    | apply onlyTypeError_if
    | (apply onlyTypeError_bind; [| intro]) ].

(** [parser.mjs] throws nothing of its own: whatever fails in the builder
    fails with [TypeError]. *)
Lemma walk_onlyTypeError fuel :
  (forall tokens index, onlyTypeError (Parser.walk fuel tokens index))
  /\ (forall tokens i columns columnParts alias,
         onlyTypeError
           (Parser.selectLoop fuel tokens i columns columnParts alias)).
Proof.
  induction fuel as [| fuel [IHw IHl]].
  - split; intros; apply onlyTypeError_OutOfFuel.
  - split; intros.
    + rewrite walk_S. destruct (at_ tokens index) as [token |]; [| ote].
      ote; auto.
      destruct (at_ tokens (index - 1)) as [lastToken |]; ote; auto.
    + rewrite selectLoop_S. destruct (at_ tokens i) as [token |]; [| ote].
      ote; auto.
Qed.

(** ** A SELECT that no FROM follows *)

Lemma noFromFrom_succ tokens i :
  noFromFrom tokens i -> noFromFrom tokens (i + 1).
Proof. intros H j t Hj. apply H. lia. Qed.

Lemma failsOrCut_bind {A B : Type} (c : Completion A)
      (k : A -> Completion B) :
  onlyTypeError c -> (forall a, failsOrCut (k a)) -> failsOrCut (bind c k).
Proof.
  intros Hc Hk. destruct c as [a | e | ]; simpl.
  - apply Hk.
  - left. now rewrite (Hc e eq_refl).
  - now right.
Qed.

(** Without a FROM ahead the loop over the columns cannot end well. *)
Lemma selectLoop_noFrom fuel :
  forall tokens i columns columnParts alias,
    noFromFrom tokens i ->
    failsOrCut (Parser.selectLoop fuel tokens i columns columnParts alias).
Proof.
  induction fuel as [| fuel IH]; intros tokens i columns columnParts alias Hno.
  - now right.
  - rewrite selectLoop_S.
    destruct (at_ tokens i) as [token |] eqn:Hat; [| now left].
    assert (Hty : String.eqb (type token) Type_.FROM_STATEMENT = false).
    { apply String.eqb_neq. apply (Hno i token); [lia | exact Hat]. }
    rewrite Hty. cbn [negb].
    pose proof (noFromFrom_succ _ _ Hno) as Hno'.
    destruct (String.eqb (type token) Type_.COMMA_DELIMITER).
    + apply failsOrCut_bind;
        [apply onlyTypeError_processColumnValueFromParts | intro; auto].
    + destruct (_ && _).
      * apply failsOrCut_bind; [apply walk_onlyTypeError | intro; auto].
      * apply failsOrCut_bind; [apply walk_onlyTypeError | intro].
        apply failsOrCut_bind; [apply onlyTypeError_getProp | intro; auto].
Qed.

Lemma walk_select_noFrom fuel tokens index token :
  at_ tokens index = Some token ->
  type token = Type_.SELECT_STATEMENT ->
  noFromFrom tokens (index + 1) ->
  failsOrCut (Parser.walk fuel tokens index).
Proof.
  intros Hat Hty Hno. destruct fuel as [| fuel]; [now right |].
  rewrite walk_S, Hat, Hty. cbn.
  now apply selectLoop_noFrom.
Qed.

(** ** Enough fuel *)

Lemma at_Some_bounds {A : Type} (l : list A) i x :
  at_ l i = Some x -> 0 <= i < Z.of_nat (length l).
Proof.
  unfold at_. destruct (Z.ltb_spec i 0) as [Hlt | Hge]; [discriminate |].
  intros H. assert (nth_error l (Z.to_nat i) <> None) as Hn by congruence.
  apply nth_error_Some in Hn. lia.
Qed.

Lemma remaining_succ tokens i t :
  at_ tokens i = Some t ->
  remaining tokens i = S (remaining tokens (i + 1)).
Proof. intros H. apply at_Some_bounds in H. unfold remaining. lia. Qed.

Lemma bind_not_OutOfFuel {A B : Type} (c : Completion A)
      (k : A -> Completion B) :
  c <> OutOfFuel -> (forall a, k a <> OutOfFuel) -> bind c k <> OutOfFuel.
Proof.
  intros Hc Hk. destruct c; simpl; [apply Hk | discriminate | now elim Hc].
Qed.

Lemma getProp_not_OutOfFuel v k : getProp v k <> OutOfFuel.
Proof. destruct v; discriminate. Qed.

Lemma someM_not_OutOfFuel {A : Type} (p : A -> Completion bool) l :
  (forall x, p x <> OutOfFuel) -> someM p l <> OutOfFuel.
Proof.
  intros Hp. induction l as [| x r IH]; simpl; [discriminate |].
  apply bind_not_OutOfFuel; [apply Hp |]. intros []; [discriminate | exact IH].
Qed.

Lemma filterM_not_OutOfFuel {A : Type} (p : A -> Completion bool) l :
  (forall x, p x <> OutOfFuel) -> filterM p l <> OutOfFuel.
Proof.
  intros Hp. induction l as [| x r IH]; simpl; [discriminate |].
  apply bind_not_OutOfFuel; [apply Hp |]. intros b.
  apply bind_not_OutOfFuel; [exact IH | discriminate].
Qed.

Lemma processColumnValueFromParts_not_OutOfFuel parts :
  Parser.processColumnValueFromParts parts <> OutOfFuel.
Proof.
  unfold Parser.processColumnValueFromParts.
  apply bind_not_OutOfFuel.
  - apply someM_not_OutOfFuel. intros x. unfold Parser.isConcatPart.
    apply bind_not_OutOfFuel; [apply getProp_not_OutOfFuel | discriminate].
  - intros [].
    + apply bind_not_OutOfFuel; [| discriminate].
      apply filterM_not_OutOfFuel. intros x. unfold Parser.isNotConcatPart.
      apply bind_not_OutOfFuel; [apply getProp_not_OutOfFuel | discriminate].
    + destruct parts as [| p [| q r]]; try discriminate.
      apply bind_not_OutOfFuel; [apply getProp_not_OutOfFuel | intro].
      apply bind_not_OutOfFuel; [apply getProp_not_OutOfFuel | discriminate].
Qed.

Ltac nof :=
  repeat first
    [ discriminate
    | apply getProp_not_OutOfFuel
    | apply processColumnValueFromParts_not_OutOfFuel
    | (apply bind_not_OutOfFuel; [| intro])
    | match goal with
      | |- (if ?b then _ else _) <> _ => destruct b
      end ].

(** A call at [index] needs two units of fuel per remaining token and one
    more; the loop needs one more than that. *)
Lemma walk_enough_fuel fuel :
  (forall tokens index,
      (2 * remaining tokens index + 1 <= fuel)%nat ->
      Parser.walk fuel tokens index <> OutOfFuel)
  /\ (forall tokens i columns columnParts alias,
         (2 * remaining tokens i + 2 <= fuel)%nat ->
         Parser.selectLoop fuel tokens i columns columnParts alias
         <> OutOfFuel).
Proof.
  induction fuel as [| fuel [IHw IHl]].
  - split; intros; lia.
  - split; intros.
    + rewrite walk_S. destruct (at_ tokens index) as [token |] eqn:Hat; [| nof].
      pose proof (remaining_succ _ _ _ Hat) as Hr.
      assert (Hw : Parser.walk fuel tokens (index + 1) <> OutOfFuel)
        by (apply IHw; lia).
      assert (Hl : forall c p a,
                 Parser.selectLoop fuel tokens (index + 1) c p a <> OutOfFuel)
        by (intros; apply IHl; lia).
      nof; auto.
      destruct (at_ tokens (index - 1)); nof; auto.
    + rewrite selectLoop_S. destruct (at_ tokens i) as [token |] eqn:Hat; [| nof].
      pose proof (remaining_succ _ _ _ Hat) as Hr.
      assert (Hw : Parser.walk fuel tokens i <> OutOfFuel)
        by (apply IHw; lia).
      assert (Hw' : Parser.walk fuel tokens (i + 1) <> OutOfFuel)
        by (apply IHw; lia).
      assert (Hl : forall c p a,
                 Parser.selectLoop fuel tokens (i + 1) c p a <> OutOfFuel)
        by (intros; apply IHl; lia).
      nof; auto.
Qed.

Lemma syntaticAnalysis_terminates tokens :
  Parser.syntaticAnalysis tokens <> OutOfFuel.
Proof.
  unfold Parser.syntaticAnalysis. apply walk_enough_fuel.
  unfold Parser.enoughFuel, remaining. lia.
Qed.

(** The pipeline ends on every input: with an answer or an exception. *)
Lemma parse_terminates tokens : Parser.parse tokens <> OutOfFuel.
Proof. apply syntaticAnalysis_terminates. Qed.

Lemma noFromFrom_Forall t rest :
  Forall (fun t => type t <> Type_.FROM_STATEMENT) rest ->
  noFromFrom (t :: rest) (0 + 1).
Proof.
  intros HF j u Hj Hat. pose proof (at_Some_bounds _ _ _ Hat) as Hb.
  unfold at_ in Hat. destruct (Z.ltb_spec j 0); [lia |].
  destruct (Z.to_nat j) as [| n] eqn:Hn; [lia |]. simpl in Hat.
  rewrite Forall_forall in HF. apply HF. eapply nth_error_In; eauto.
Qed.

(** [parser.mjs]: a leading SELECT that no FROM follows. *)
Lemma parse_select_noFrom tokens select rest :
  filter Parser.removeEmptySpace (lexicalAnalysis tokens) = select :: rest ->
  type select = Type_.SELECT_STATEMENT ->
  Forall (fun t => type t <> Type_.FROM_STATEMENT) rest ->
  Parser.parse tokens = Throw TypeError.
Proof.
  intros Hts Hsel Hno.
  pose proof (parse_terminates tokens) as Hterm.
  unfold Parser.parse, Parser.syntaticAnalysis in *. rewrite Hts in *.
  destruct (walk_select_noFrom (Parser.enoughFuel (select :: rest))
              (select :: rest) 0 select eq_refl Hsel
              (noFromFrom_Forall _ _ Hno)) as [H | H];
    [exact H | contradiction].
Qed.

Lemma bind_Return_inv {A B : Type} (c : Completion A)
      (k : A -> Completion B) b :
  bind c k = Return b -> exists a, c = Return a /\ k a = Return b.
Proof.
  destruct c as [a | e |]; cbn [bind]; intros H; try discriminate H.
  now exists a.
Qed.

Lemma tokenAt_In tokens index t :
  Select.tokenAt tokens index = Some t -> In t tokens.
Proof.
  destruct index; try discriminate. cbn [Select.tokenAt]. unfold at_.
  destruct (n <? 0); [discriminate |]. apply nth_error_In.
Qed.

(** The SELECT module: the loop of [walkColumns] ends only on a FROM token,
    so without one it answers nothing, whatever the imported names are. *)
Lemma walkColumnsLoop_noFrom K walk fuel :
  forall tokens index columns columnTmp answer,
    (forall t, In t tokens -> type t <> Select.ReservedWord_FROM K) ->
    Select.walkColumnsLoop K walk fuel tokens index columns columnTmp
    <> Return answer.
Proof.
  induction fuel as [| fuel IH];
    intros tokens index columns columnTmp answer Hno H;
    [discriminate H |].
  cbn [Select.walkColumnsLoop] in H.
  assert (Hty : strictEq (Select.typeOpt (Select.tokenAt tokens index))
                         (VStr (Select.ReservedWord_FROM K)) = false).
  { destruct (Select.tokenAt tokens index) as [t |] eqn:Hat; [| reflexivity].
    cbn [Select.typeOpt strictEq]. apply String.eqb_neq.
    apply Hno. exact (tokenAt_In _ _ _ Hat). }
  rewrite Hty in H. cbn [negb] in H.
  repeat match type of H with
         | (if ?b then _ else _) = Return _ => destruct b
         | bind _ _ = Return _ =>
             apply bind_Return_inv in H as (? & _ & H)
         | match ?o with Some _ => _ | None => _ end = Return _ =>
             destruct o as [[? ?] |]; [| discriminate H]
         end;
    exact (IH _ _ _ _ _ Hno H).
Qed.

(** C3, as amended.  In [parser.mjs], when the first non-empty token is
    SELECT and no FROM keyword follows it, [parse] returns no tree,
    partial or null, and does not run forever: it ends in the runtime's
    [TypeError].  In the SELECT module, on tokens that hold no FROM,
    [walkColumns] and the default export return nothing either, whatever
    the imported constants and dispatcher are. *)
Theorem select_without_from_returns_no_tree :
  (forall (tokens : list string) (select : Token) (rest : list Token),
      filter Parser.removeEmptySpace (lexicalAnalysis tokens)
      = select :: rest ->
      type select = Type_.SELECT_STATEMENT ->
      Forall (fun t => type t <> Type_.FROM_STATEMENT) rest ->
      Parser.parse tokens = Throw TypeError)
  /\ (forall (K : Select.Constants)
             (walk : list Token -> Value -> Completion Value)
             (fuel : nat) (tokens : list Token) (index : Value),
         (forall t, In t tokens -> type t <> Select.ReservedWord_FROM K) ->
         (forall answer,
             Select.walkColumns K walk fuel tokens index <> Return answer)
         /\ (forall ast,
                Select.select K walk fuel tokens index <> Return ast)).
Proof.
  split.
  - intros tokens select rest. apply parse_select_noFrom.
  - intros K walk fuel tokens index Hno.
    assert (Hcols : forall answer,
               Select.walkColumns K walk fuel tokens index <> Return answer).
    { intros answer. unfold Select.walkColumns.
      now apply walkColumnsLoop_noFrom. }
    split; [exact Hcols |].
    intros ast H. unfold Select.select in H.
    apply bind_Return_inv in H as (answer & Hc & _).
    exact (Hcols answer Hc).
Qed.

(** The theorem at SELECT a, in both modules. *)
Lemma select_without_from_witness :
  filter Parser.removeEmptySpace (lexicalAnalysis ["SELECT"; "a"])
  = [mkToken Type_.SELECT_STATEMENT "SELECT"; mkToken Type_.UNKNOWN "a"]
  /\ Parser.parse ["SELECT"; "a"] = Throw TypeError
  /\ Select.select Select.specConstants
       (Select.walkModel Select.specConstants 4%nat) 4%nat
       [keyword "SELECT"; identifier "a"] (VNum 0)
     <> Return VUndefined.
Proof.
  split; [reflexivity |]. split.
  - apply (proj1 select_without_from_returns_no_tree ["SELECT"; "a"]
             (mkToken Type_.SELECT_STATEMENT "SELECT")
             [mkToken Type_.UNKNOWN "a"]).
    + reflexivity.
    + reflexivity.
    + constructor; [discriminate | constructor].
  - apply (proj2 select_without_from_returns_no_tree Select.specConstants
             (Select.walkModel Select.specConstants 4%nat) 4%nat
             [keyword "SELECT"; identifier "a"] (VNum 0)).
    intros t [<- | [<- | []]]; discriminate.
Defined.

(** The failure need not be a read past the end: after SELECT WHERE the
    tokens are exhausted inside [walk], which answers [undefined], and the
    loop fails on reading the type of that answer. *)
Lemma select_then_unhandled_token :
  Parser.walk 4 (lexicalAnalysis ["SELECT"; "WHERE"]) 1 = Return VUndefined
  /\ Parser.parse ["SELECT"; "WHERE"] = Throw TypeError.
Proof. split; reflexivity. Qed.

(** C3 as stated fails.  SELECT a holds a SELECT and no FROM: parsing ends
    in [TypeError], the failure of the out-of-bounds read, and in no
    error the parser raises itself.  An asterisk followed by SELECT holds
    a SELECT and no FROM as well: parsing answers the node of the
    asterisk and reports nothing. *)
Lemma select_without_from_no_typed_error :
  In "SELECT" ["SELECT"; "a"] /\ ~ In "FROM" ["SELECT"; "a"]
  /\ Parser.parse ["SELECT"; "a"] = Throw TypeError
  /\ ~ (exists message, Parser.parse ["SELECT"; "a"] = Throw (Error message))
  /\ In "SELECT" ["*"; "SELECT"] /\ ~ In "FROM" ["*"; "SELECT"]
  /\ Parser.parse ["*"; "SELECT"]
     = Return (VObj [("type", VStr "asterisk"); ("value", VStr "*")]).
Proof.
  repeat split.
  - simpl; auto.
  - simpl. intros [H | [H | []]]; discriminate H.
  - intros [message H]. discriminate H.
  - simpl; auto.
  - simpl. intros [H | [H | []]]; discriminate H.
Qed.

(** ** The classifier *)

(** C7.  The classifier answers as many tokens as it is given strings, and
    the token at each position is the classification of the string at
    that position: nothing is split, merged or dropped. *)
Theorem lexicalAnalysis_one_to_one :
  forall tokens : list string,
    length (lexicalAnalysis tokens) = length tokens
    /\ forall i, nth_error (lexicalAnalysis tokens) i
                 = option_map classify (nth_error tokens i).
Proof.
  intros tokens. unfold lexicalAnalysis. split.
  - apply length_map.
  - intros i. apply nth_error_map.
Qed.

(** C8.  The classifier answers a token for every string, whose value is
    the string itself or, for a quoted literal, the string without its
    first and last character.  A string that is not quoted, not of the
    shape of a function call and not a key of the keyword table once
    upper-cased is an Unknown token whose value is the string as it was
    given. *)
Theorem classify_total_unknown :
  forall token : string,
    (exists t, classify token = t
               /\ (value t = token \/ value t = slice token 1 (-1)))
    /\ (isString token = false ->
        isFunctionCall token = false ->
        tokenTypes (toUpperCase token) = None ->
        classify token = mkToken Type_.UNKNOWN token).
Proof.
  intros token. split.
  - exists (classify token). split; [reflexivity |]. unfold classify.
    destruct (isString token); [now right |].
    destruct (isFunctionCall token); now left.
  - intros Hs Hf Hk. unfold classify. now rewrite Hs, Hf, Hk.
Qed.

(** The theorem at Users. *)
Lemma classify_total_unknown_witness :
  isString "Users" = false /\ isFunctionCall "Users" = false
  /\ tokenTypes (toUpperCase "Users") = None
  /\ classify "Users" = mkToken Type_.UNKNOWN "Users".
Proof.
  repeat (split; [reflexivity |]).
  apply (proj2 (classify_total_unknown "Users")); reflexivity.
Defined.

(** C9.  The string made of one quote starts and ends with a quote: it is
    classified as a string literal, and its value is the empty string. *)
Theorem single_quote_is_empty_string_literal :
  isString "'" = true
  /\ classify "'" = mkToken Type_.STRING_LITERAL EmptyString
  /\ lexicalAnalysis ["'"] = [mkToken Type_.STRING_LITERAL EmptyString].
Proof. repeat split. Qed.

(** ** Strings *)

Lemma len_append a b : len (a ++ b) = len a + len b.
Proof.
  unfold len. induction a as [| c a IH]; simpl String.length; [lia |].
  simpl in IH. lia.
Qed.

Lemma len_nonneg s : 0 <= len s.
Proof. unfold len. lia. Qed.

Lemma substring_prefix a b :
  String.substring 0 (String.length a) (a ++ b) = a.
Proof.
  induction a as [| c a IH]; simpl.
  - now destruct b.
  - now rewrite IH.
Qed.

Lemma substring_skip a b n m :
  String.substring (String.length a + n) m (a ++ b) = String.substring n m b.
Proof. induction a as [| c a IH]; simpl; auto. Qed.

Lemma substring_all s : String.substring 0 (String.length s) s = s.
Proof. induction s as [| c s IH]; simpl; [reflexivity | now rewrite IH]. Qed.

Lemma substring_empty n s : String.substring n 0 s = EmptyString.
Proof.
  revert n. induction s as [| c s IH]; intros [| n]; simpl; auto.
Qed.

Lemma JS_substring_in_range s a b :
  0 <= a <= b -> b <= len s ->
  JS.substring s a b = String.substring (Z.to_nat a) (Z.to_nat (b - a)) s.
Proof.
  intros Hab Hb. unfold JS.substring.
  replace (Z.max 0 (Z.min a (len s))) with a by lia.
  replace (Z.max 0 (Z.min b (len s))) with b by lia.
  replace (Z.min a b) with a by lia.
  replace (Z.max a b) with b by lia.
  reflexivity.
Qed.

Lemma indexOfFrom_skip c a r i :
  noChar c a = true ->
  indexOfFrom c (a ++ r) i = indexOfFrom c r (i + len a).
Proof.
  revert i. induction a as [| d a IH]; intros i H; simpl.
  - f_equal. unfold len. simpl. lia.
  - unfold noChar in H. simpl in H. apply andb_true_iff in H as [Hd Ha].
    apply negb_true_iff in Hd. rewrite Hd, IH by exact Ha.
    f_equal. unfold len. simpl String.length. lia.
Qed.

Lemma allChars_impl (p q : ascii -> bool) s :
  (forall c, p c = true -> q c = true) ->
  allChars p s = true -> allChars q s = true.
Proof.
  intros Hpq. induction s as [| c s IH]; simpl; [auto |].
  intros H. apply andb_true_iff in H as [Hc Hs].
  now rewrite (Hpq _ Hc), IH.
Qed.

Lemma allChars_append p a b :
  allChars p (a ++ b) = allChars p a && allChars p b.
Proof.
  induction a as [| c a IH]; simpl; [reflexivity |].
  now rewrite IH, andb_assoc.
Qed.

Lemma isWordChar_not_paren c :
  isWordChar c = true ->
  Ascii.eqb c "(" = false /\ Ascii.eqb c ")" = false
  /\ Ascii.eqb c "'" = false.
Proof.
  destruct c as [[|] [|] [|] [|] [|] [|] [|] [|]]; vm_compute;
    intros H; repeat split; congruence.
Qed.

Lemma wordChars_noChar name :
  allChars isWordChar name = true ->
  noChar "(" name = true /\ noChar ")" name = true.
Proof.
  intros H. split; (eapply allChars_impl; [| exact H]); intros c Hc;
    apply isWordChar_not_paren in Hc as (H1 & H2 & H3);
    [now rewrite H1 | now rewrite H2].
Qed.

(** ** Function-call tokens without inner parentheses *)

Lemma indexOf_open name rest :
  noChar "(" name = true ->
  indexOf (name ++ String "(" rest) "(" = len name.
Proof.
  intros H. unfold indexOf. rewrite indexOfFrom_skip by exact H.
  reflexivity.
Qed.

Lemma indexOf_close name args rest :
  noChar ")" name = true -> noChar ")" args = true ->
  indexOf (name ++ String "(" (args ++ String ")" rest)) ")"
  = len name + 1 + len args.
Proof.
  intros Hn Ha. unfold indexOf. rewrite indexOfFrom_skip by exact Hn.
  cbn [indexOfFrom]. change (Ascii.eqb "(" ")") with false. cbv iota.
  rewrite indexOfFrom_skip by exact Ha. cbn [indexOfFrom].
  rewrite Ascii.eqb_refl. lia.
Qed.

Lemma to_nat_len s : Z.to_nat (len s) = String.length s.
Proof. unfold len. lia. Qed.

(** When the arguments hold no right parenthesis, the first one is the
    one that ends the token, and the decomposition is the name and the
    comma-split text between the parentheses. *)
Lemma functionCallNode_flat name args :
  noChar "(" name = true -> noChar ")" name = true ->
  noChar ")" args = true ->
  Parser.functionCallNode (name ++ String "(" (args ++ ")")) =
  VObj [("type", VStr "function_call"); ("name", VStr name);
        ("arguments", VArr (map VStr (JS.split args ",")))].
Proof.
  intros Ho Hc Ha. unfold Parser.functionCallNode.
  rewrite indexOf_open by exact Ho. rewrite indexOf_close by assumption.
  pose proof (len_nonneg name) as Hn. pose proof (len_nonneg args) as Hl.
  assert (Hlen : len (name ++ String "(" (args ++ ")"))
                 = len name + 1 + len args + 1).
  { rewrite len_append. change (String "(" (args ++ ")"))
      with ("(" ++ (args ++ ")")). rewrite !len_append.
    change (len "(") with 1. change (len ")") with 1. lia. }
  rewrite !JS_substring_in_range by lia.
  replace (Z.to_nat 0) with 0%nat by lia.
  replace (Z.to_nat (len name - 0)) with (String.length name)
    by (rewrite <- to_nat_len; lia).
  rewrite substring_prefix.
  replace (Z.to_nat (len name + 1)) with (String.length name + 1)%nat
    by (rewrite <- to_nat_len; lia).
  rewrite substring_skip. cbn [String.substring].
  replace (Z.to_nat (len name + 1 + len args - (len name + 1)))
    with (String.length args) by (rewrite <- to_nat_len; lia).
  rewrite substring_prefix. reflexivity.
Qed.

Lemma isString_wordStart c name rest :
  isWordChar c = true -> isString (String c name ++ rest) = false.
Proof.
  intros H. apply isWordChar_not_paren in H as (_ & _ & H).
  unfold isString. simpl. now rewrite H.
Qed.

Lemma length_append_nat a b :
  String.length (a ++ b) = (String.length a + String.length b)%nat.
Proof. induction a as [| c a IH]; simpl; [reflexivity | now rewrite IH]. Qed.

Lemma endsWith_append a p : endsWith (a ++ p) p = true.
Proof.
  unfold endsWith. rewrite length_append_nat.
  replace (String.length a + String.length p - String.length p)%nat
    with (String.length a + 0)%nat by lia.
  rewrite substring_skip, substring_all, String.eqb_refl.
  apply andb_true_iff. split; [apply Nat.leb_le; lia | reflexivity].
Qed.

Lemma append_assoc_cons a c b d :
  a ++ String c (b ++ d) = (a ++ String c b) ++ d.
Proof. induction a as [| x a IH]; simpl; [reflexivity | now rewrite IH]. Qed.

(** The pattern accepts every name of word characters followed by
    parenthesised text without line terminators. *)
Lemma isFunctionCall_shape name args :
  name <> EmptyString ->
  allChars isWordChar name = true ->
  allChars (fun c => negb (isLineTerminator c)) args = true ->
  isFunctionCall (name ++ String "(" (args ++ ")")) = true.
Proof.
  intros Hne Hw Hargs. unfold isFunctionCall.
  destruct (wordChars_noChar _ Hw) as [Ho Hc].
  rewrite indexOf_open by exact Ho.
  pose proof (len_nonneg name) as Hn. pose proof (len_nonneg args) as Hl.
  assert (Hpos : 1 <= len name).
  { destruct name; [congruence |]. unfold len. simpl String.length. lia. }
  assert (Hlen : len (name ++ String "(" (args ++ ")"))
                 = len name + 1 + len args + 1).
  { rewrite len_append. change (String "(" (args ++ ")"))
      with ("(" ++ (args ++ ")")). rewrite !len_append.
    change (len "(") with 1. change (len ")") with 1. lia. }
  rewrite Hlen. rewrite !JS_substring_in_range by lia.
  replace (Z.to_nat 0) with 0%nat by lia.
  replace (Z.to_nat (len name - 0)) with (String.length name)
    by (rewrite <- to_nat_len; lia).
  rewrite substring_prefix, Hw.
  replace (Z.to_nat (len name + 1)) with (String.length name + 1)%nat
    by (rewrite <- to_nat_len; lia).
  rewrite substring_skip. cbn [String.substring].
  replace (Z.to_nat (len name + 1 + len args + 1 - 1 - (len name + 1)))
    with (String.length args) by (rewrite <- to_nat_len; lia).
  rewrite substring_prefix, Hargs.
  rewrite append_assoc_cons, endsWith_append.
  repeat (apply andb_true_iff; split); try reflexivity;
    apply Z.leb_le; lia.
Qed.

Lemma classify_functionCall name args :
  name <> EmptyString ->
  allChars isWordChar name = true ->
  allChars (fun c => negb (isLineTerminator c)) args = true ->
  classify (name ++ String "(" (args ++ ")"))
  = mkToken Type_.FUNCTION_CALL (name ++ String "(" (args ++ ")")).
Proof.
  intros Hne Hw Hargs. unfold classify.
  rewrite (isFunctionCall_shape _ _ Hne Hw Hargs).
  destruct name as [| c name]; [congruence |].
  simpl in Hw. apply andb_true_iff in Hw as [Hc _].
  now rewrite (isString_wordStart c name _ Hc).
Qed.

Lemma parse_functionCall_flat name args :
  name <> EmptyString ->
  allChars isWordChar name = true ->
  allChars (fun c => negb (isLineTerminator c)) args = true ->
  noChar ")" args = true ->
  Parser.parse [name ++ String "(" (args ++ ")")] =
  Return (VObj [("type", VStr "function_call"); ("name", VStr name);
                ("arguments", VArr (map VStr (JS.split args ",")))]).
Proof.
  intros Hne Hw Hargs Hclose.
  destruct (wordChars_noChar _ Hw) as [Ho Hc].
  unfold Parser.parse, Parser.syntaticAnalysis, lexicalAnalysis.
  cbn [map]. rewrite (classify_functionCall _ _ Hne Hw Hargs).
  cbn. now rewrite functionCallNode_flat.
Qed.

(** C10.  A function-call token with nothing between its parentheses is
    classified as a function call and decomposes into the name and the
    list of arguments whose only element is the empty string. *)
Theorem empty_parentheses_one_empty_argument :
  forall name : string,
    name <> EmptyString ->
    allChars isWordChar name = true ->
    classify (name ++ "()") = mkToken Type_.FUNCTION_CALL (name ++ "()")
    /\ Parser.parse [name ++ "()"] =
       Return (VObj [("type", VStr "function_call"); ("name", VStr name);
                     ("arguments", VArr [VStr EmptyString])]).
Proof.
  intros name Hne Hw. split.
  - apply (classify_functionCall name EmptyString Hne Hw eq_refl).
  - apply (parse_functionCall_flat name EmptyString Hne Hw eq_refl eq_refl).
Qed.

(** The theorem at f(). *)
Lemma empty_parentheses_witness :
  "f" <> EmptyString /\ allChars isWordChar "f" = true
  /\ Parser.parse ["f()"] =
     Return (VObj [("type", VStr "function_call"); ("name", VStr "f");
                   ("arguments", VArr [VStr EmptyString])]).
Proof.
  split; [discriminate | split; [reflexivity |]].
  apply (empty_parentheses_one_empty_argument "f");
    [discriminate | reflexivity].
Defined.

(** C2 (function-call decomposition), at f(g(x),y).  The token is
    classified as a function call and the name is the text before the
    first left parenthesis, but the arguments are cut at the first right
    parenthesis and not at the one that matches: the only argument is
    the text g(x . *)
Theorem nested_parentheses_truncate_arguments :
  classify "f(g(x),y)" = mkToken Type_.FUNCTION_CALL "f(g(x),y)"
  /\ Parser.parse ["f(g(x),y)"] =
     Return (VObj [("type", VStr "function_call"); ("name", VStr "f");
                   ("arguments", VArr [VStr "g(x"])]).
Proof. split; reflexivity. Qed.

(** ** The smoke test *)

(** C6.  SELECT * FROM t parses to a select node with exactly one column,
    whose expression is the asterisk and whose alias is [null], and with
    the source t; the node has no [where] property and its source has no
    [alias] property. *)
Theorem parse_select_star :
  Parser.parse ["SELECT"; "*"; "FROM"; "t"] = Return selectStarFromT
  /\ getProp selectStarFromT "where" = Return VUndefined
  /\ (from <- getProp selectStarFromT "from" ;; getProp from "alias")
     = Return VUndefined.
Proof. repeat split. Qed.

(** [parser.mjs] itself stops after the source of the first SELECT: a
    WHERE clause and a UNION that follow are not read. *)
Lemma parse_stops_after_from :
  Parser.parse ["SELECT"; "*"; "FROM"; "t";
                "WHERE"; "x"; "="; "1"; "AND"; "y"; "="; "2"]
  = Return selectStarFromT
  /\ Parser.parse ["SELECT"; "*"; "FROM"; "t"; "UNION"; "ALL";
                   "SELECT"; "*"; "FROM"; "b"]
     = Return selectStarFromT.
Proof. split; reflexivity. Qed.

(** ** Concatenation *)

Lemma splitOn_length {A : Type} (p : A -> bool) l :
  length (splitOn p l) = S (length (filter p l)).
Proof.
  induction l as [| x r IH]; simpl; [reflexivity |].
  destruct (p x); simpl; [now rewrite IH |].
  destruct (splitOn p r); simpl in *; lia.
Qed.

Lemma splitOn_groups {A : Type} (p : A -> bool) l :
  Forall (Forall (fun x => p x = false)) (splitOn p l).
Proof.
  induction l as [| x r IH]; simpl; [repeat constructor |].
  destruct (p x) eqn:Hp; [constructor; [constructor | exact IH] |].
  destruct (splitOn p r) as [| g gs]; [repeat constructor; exact Hp |].
  inversion IH; subst. constructor; [constructor |]; assumption.
Qed.

Lemma splitOn_concat {A : Type} (p : A -> bool) l :
  concat (splitOn p l) = filter (fun x => negb (p x)) l.
Proof.
  induction l as [| x r IH]; simpl; [reflexivity |].
  destruct (p x); simpl; [exact IH |].
  destruct (splitOn p r) as [| g gs]; simpl in *; now rewrite <- IH.
Qed.

Lemma splitOn_members {A : Type} (p : A -> bool) (Q : A -> Prop) l :
  Forall Q l -> Forall (Forall Q) (splitOn p l).
Proof.
  induction 1 as [| x r Hx Hr IH]; simpl; [repeat constructor |].
  destruct (p x); [constructor; [constructor | exact IH] |].
  destruct (splitOn p r) as [| g gs]; [repeat constructor; exact Hx |].
  inversion IH; subst. constructor; [constructor |]; assumption.
Qed.

Lemma prependToFirst_nil {A : Type} (p : A -> bool) l :
  prependToFirst [] (splitOn p l) = splitOn p l.
Proof.
  destruct (splitOn p l) eqn:H; [| reflexivity].
  pose proof (splitOn_length p l) as Hl. rewrite H in Hl. discriminate.
Qed.

Lemma at_app {A : Type} (pre : list A) x rest :
  at_ (pre ++ x :: rest) (Z.of_nat (length pre)) = Some x.
Proof.
  unfold at_. destruct (Z.ltb_spec (Z.of_nat (length pre)) 0); [lia |].
  rewrite Nat2Z.id. rewrite nth_error_app2 by lia.
  now rewrite Nat.sub_diag.
Qed.

Lemma arraySlice_prefix {A : Type} (pre rest : list A) :
  Select.arraySlice (pre ++ rest) 0 (Z.of_nat (length pre)) = pre.
Proof.
  unfold Select.arraySlice. rewrite length_app.
  change (0 <? 0) with false. cbv iota.
  destruct (Z.ltb_spec (Z.of_nat (length pre)) 0); [lia |].
  replace (Z.to_nat (Z.min 0 _)) with 0%nat by lia.
  replace (Z.to_nat (Z.min _ _ - Z.min 0 _)) with (length pre) by lia.
  simpl. rewrite firstn_app, Nat.sub_diag, firstn_all. simpl.
  apply app_nil_r.
Qed.

Lemma arraySlice_suffix {A : Type} (pre : list A) x rest :
  Select.arraySlice (pre ++ x :: rest) (Z.of_nat (length pre) + 1)
    (Z.of_nat (length (pre ++ x :: rest))) = rest.
Proof.
  unfold Select.arraySlice. rewrite length_app. simpl length.
  destruct (Z.ltb_spec (Z.of_nat (length pre) + 1) 0); [lia |].
  destruct (Z.ltb_spec (Z.of_nat (length pre + S (length rest))) 0); [lia |].
  replace (Z.to_nat (Z.min (Z.of_nat (length pre) + 1) _))
    with (length (pre ++ [x])) by (rewrite length_app; simpl; lia).
  replace (pre ++ x :: rest)%list with ((pre ++ [x]) ++ rest)%list
    by (now rewrite <- app_assoc).
  rewrite skipn_app, skipn_all, Nat.sub_diag. simpl.
  apply firstn_all2. lia.
Qed.

Section Columns.

Variable K : Select.Constants.

Lemma isConcat_defined v :
  defined v = true -> Select.isConcat K v = Return (isOperator K v).
Proof. destruct v; try discriminate; reflexivity. Qed.

Lemma someM_isConcat parts :
  Forall (fun v => defined v = true) parts ->
  someM (Select.isConcat K) parts = Return (existsb (isOperator K) parts).
Proof.
  induction 1 as [| v r Hv Hr IH]; simpl; [reflexivity |].
  rewrite (isConcat_defined v Hv). simpl.
  destruct (isOperator K v); [reflexivity | exact IH].
Qed.

(** The loop of [splitTokensByConcatOperator], started on [pre ++ rest]
    at the end of [pre], cuts [rest] at its operators and puts [pre] in
    front of the first group. *)
Lemma splitLoop_spec rest :
  forall fuel arrays pre,
    Forall (fun v => defined v = true) rest ->
    (length rest < fuel)%nat ->
    Select.splitLoop K fuel arrays (pre ++ rest) (Z.of_nat (length pre))
    = Return (arrays ++ prependToFirst pre (splitOn (isOperator K) rest))%list.
Proof.
  induction rest as [| x rest IH]; intros fuel arrays pre Hdef Hfuel;
    (destruct fuel as [| fuel]; [simpl in Hfuel; lia |]).
  - cbn [Select.splitLoop splitOn prependToFirst]. rewrite !app_nil_r.
    now rewrite Z.ltb_irrefl.
  - cbn [Select.splitLoop].
    inversion Hdef as [| ? ? Hx Hrest]; subst.
    destruct (Z.ltb_spec (Z.of_nat (length pre))
                         (Z.of_nat (length (pre ++ x :: rest)))) as [_ | Hge];
      [| rewrite length_app in Hge; simpl in Hge; lia].
    unfold Select.elemAt. rewrite at_app, (isConcat_defined x Hx).
    cbn [bind splitOn].
    destruct (isOperator K x).
    + rewrite arraySlice_prefix, arraySlice_suffix.
      assert (Hlt : (length rest < fuel)%nat) by (simpl in Hfuel; lia).
      pose proof (IH fuel (arrays ++ [pre])%list [] Hrest Hlt) as Hrec.
      cbn [app length Z.of_nat] in Hrec. rewrite Hrec.
      rewrite prependToFirst_nil. cbn [prependToFirst].
      now rewrite app_nil_r, <- app_assoc.
    + replace (pre ++ x :: rest)%list with ((pre ++ [x]) ++ rest)%list
        by (now rewrite <- app_assoc).
      replace (Z.of_nat (length pre) + 1)
        with (Z.of_nat (length (pre ++ [x])))
        by (rewrite length_app; simpl; lia).
      rewrite (IH fuel arrays (pre ++ [x])%list Hrest)
        by (simpl in Hfuel; lia).
      destruct (splitOn (isOperator K) rest) as [| g gs] eqn:Hs.
      * pose proof (splitOn_length (isOperator K) rest) as Hl.
        rewrite Hs in Hl. discriminate.
      * cbn [prependToFirst]. now rewrite <- app_assoc.
Qed.

Lemma splitTokensByConcatOperator_spec arr :
  Forall (fun v => defined v = true) arr ->
  Select.splitTokensByConcatOperator K arr
  = Return (splitOn (isOperator K) arr).
Proof.
  intros Hdef. unfold Select.splitTokensByConcatOperator.
  pose proof (splitLoop_spec arr (S (length arr)) [] [] Hdef
                (Nat.lt_succ_diag_r _)) as Hrec.
  cbn [app length Z.of_nat] in Hrec. rewrite Hrec.
  now rewrite prependToFirst_nil.
Qed.

(** A group without operator is resolved without recursion. *)
Lemma processColumn_group fuel group alias :
  Forall (fun v => defined v = true) group ->
  existsb (isOperator K) group = false ->
  Select.processColumn K (S fuel) group alias
  = Select.processColumn K 1 group alias.
Proof.
  intros Hdef Hno. cbn [Select.processColumn].
  rewrite (someM_isConcat group Hdef), Hno. reflexivity.
Qed.

Lemma mapM_ext {A B : Type} (f g : A -> Completion B) l :
  Forall (fun x => f x = g x) l -> mapM f l = mapM g l.
Proof.
  induction 1 as [| x r Hx Hr IH]; simpl; [reflexivity |].
  now rewrite Hx, IH.
Qed.

Lemma mapM_length {A B : Type} (f : A -> Completion B) l :
  forall l', mapM f l = Return l' -> length l' = length l.
Proof.
  induction l as [| x r IH]; simpl; intros l' H.
  - now injection H as <-.
  - destruct (f x) as [y | |]; simpl in H; try discriminate.
    destruct (mapM f r) as [r' | |]; simpl in H; try discriminate.
    injection H as <-. simpl. now rewrite (IH r' eq_refl).
Qed.

Lemma existsb_false_Forall {A : Type} (p : A -> bool) l :
  Forall (fun x => p x = false) l -> existsb p l = false.
Proof.
  induction 1 as [| x r Hx Hr IH]; simpl; [reflexivity |].
  now rewrite Hx, IH.
Qed.

(** Parts that hold an operator are cut into the groups between the
    operators, each group is resolved on its own, and the column is the
    Concatenation of the results; the first group that cannot be resolved
    makes the whole call fail. *)
Lemma processColumn_concatenation fuel parts alias :
  Forall (fun v => defined v = true) parts ->
  existsb (isOperator K) parts = true ->
  Select.processColumn K (S (S fuel)) parts alias =
  (subColumns <-
     mapM (fun group => Select.processColumn K 1 group VUndefined)
          (splitOn (isOperator K) parts) ;;
   Return (VObj [("type", VStr (Select.Other_CONCATENATION K));
                 ("value", VArr subColumns);
                 ("alias", alias)])).
Proof.
  intros Hdef Hop. cbn [Select.processColumn].
  rewrite (someM_isConcat parts Hdef), Hop. cbn [bind].
  rewrite (splitTokensByConcatOperator_spec parts Hdef). cbn [bind].
  rewrite (mapM_ext
             (fun group => Select.processColumn K (S fuel) group VUndefined)
             (fun group => Select.processColumn K 1 group VUndefined)).
  - reflexivity.
  - pose proof (splitOn_groups (isOperator K) parts) as Hg.
    pose proof (splitOn_members (isOperator K) _ parts Hdef) as Hm.
    rewrite Forall_forall in *. intros g Hin.
    apply processColumn_group; [now apply Hm |].
    apply existsb_false_Forall. now apply Hg.
Qed.

(** A Concatenation that [processColumn] answers for [k] operators has
    exactly [k + 1] parts, hence at least two. *)
Lemma processColumn_concatenation_parts fuel parts alias node :
  Forall (fun v => defined v = true) parts ->
  existsb (isOperator K) parts = true ->
  Select.processColumn K (S (S fuel)) parts alias = Return node ->
  exists subColumns,
    node = VObj [("type", VStr (Select.Other_CONCATENATION K));
                 ("value", VArr subColumns);
                 ("alias", alias)]
    /\ length subColumns = S (length (filter (isOperator K) parts))
    /\ (2 <= length subColumns)%nat.
Proof.
  intros Hdef Hop H.
  rewrite (processColumn_concatenation fuel parts alias Hdef Hop) in H.
  destruct (mapM _ _) as [subs | |] eqn:Hm; simpl in H; try discriminate.
  injection H as <-. exists subs. split; [reflexivity |].
  apply mapM_length in Hm. rewrite splitOn_length in Hm.
  split; [exact Hm |]. rewrite Hm.
  destruct (filter (isOperator K) parts) eqn:Hf; [| simpl; lia].
  exfalso. apply existsb_exists in Hop as (x & Hin & Hx).
  assert (In x (filter (isOperator K) parts)) as Hin'
      by (apply filter_In; auto).
  now rewrite Hf in Hin'.
Qed.

End Columns.

(** C4 (concatenation splitting).  [processColumnValueFromParts] does not
    split the parts into groups: it drops the operators and keeps every
    other part as an element.  SELECT a || FROM t gives a Concatenation
    with a single part, and SELECT a b || c FROM t, with one operator,
    gives three parts. *)
Theorem trailing_concat_operator_single_part :
  Parser.parse ["SELECT"; "a"; "||"; "FROM"; "t"]
  = Return (selectNode (concatenation [objectValue "a"]) "t")
  /\ Parser.parse ["SELECT"; "a"; "b"; "||"; "c"; "FROM"; "t"]
     = Return (selectNode
                 (concatenation
                    [objectValue "a"; objectValue "b"; objectValue "c"])
                 "t").
Proof. split; reflexivity. Qed.

(** The example of the specification: two parts, both identifiers. *)
Lemma parse_concatenation_two_identifiers :
  Parser.parse ["SELECT"; "a"; "||"; "b"; "FROM"; "t"]
  = Return (selectNode (concatenation [objectValue "a"; objectValue "b"])
                       "t").
Proof. reflexivity. Qed.

(** ** WHERE *)

(** A run is stated for every amount of fuel from a bound on. *)
Tactic Notation "enough_fuel" integer(n) :=
  intros fuel Hfuel;
  do n (destruct fuel as [| fuel]; [exfalso; clear -Hfuel; lia |]);
  clear Hfuel.

Section Where.

Variable K : Select.Constants.
Variable walk : list Token -> Value -> Completion Value.

(** Whatever the imported names are, [walkWhereParts] answers either an
    object [{ value, index }], at the end of the clause, or the node of a
    logical operator, which has neither property. *)
Lemma walkWherePartsLoop_shape fuel :
  forall tokens index comparation r,
    Select.walkWherePartsLoop K walk fuel tokens index comparation
    = Return r ->
    (exists c i, r = VObj [("value", c); ("index", i)])
    \/ (exists op l rt,
           r = VObj [("type", VStr op); ("left", l); ("right", rt)]
           /\ Select.Operator_isLogical K (VStr op) = true).
Proof.
  induction fuel as [| fuel IH]; intros tokens index comparation r H;
    [discriminate H |].
  cbn [Select.walkWherePartsLoop] in H.
  destruct (Select.ReservedWord_isEndOfWhere K _); cbn [negb] in H.
  - injection H as <-. left. eauto.
  - destruct (Select.Operator_isLogical K _) eqn:Hlog.
    + destruct (Select.tokenAt tokens index) as [operator |];
        [| discriminate H].
      destruct (Select.walkWherePartsLoop K walk fuel tokens _ VUndefined)
        as [rest | |]; try discriminate H.
      cbn [bind] in H.
      destruct (getProp rest "value") as [rt | |]; try discriminate H.
      injection H as <-. right. exists (type operator), comparation, rt.
      split; [reflexivity | exact Hlog].
    + destruct (Select.Comparator_is K _).
      * destruct (walk tokens _) as [w | |]; try discriminate H.
        cbn [bind] in H.
        destruct (getProp w "value") as [rt | |]; try discriminate H.
        cbn [bind] in H.
        destruct (Select.tokenAt tokens (Select.jsAdd index 1));
          [| discriminate H].
        exact (IH _ _ _ _ H).
      * exact (IH _ _ _ _ H).
Qed.

(** [walkWhere] on the node of a logical operator: the predicate and the
    cursor are both [undefined]. *)
Lemma walkWhere_drops_logical fuel tokens index op l rt :
  Select.walkWhereParts K walk fuel tokens (Select.jsAdd index 1)
  = Return (VObj [("type", VStr op); ("left", l); ("right", rt)]) ->
  Select.walkWhere K walk fuel tokens index
  = Return (VObj [("type", VStr (Select.ReservedWord_WHERE K));
                  ("value", VUndefined)],
            VUndefined).
Proof. intros H. unfold Select.walkWhere. now rewrite H. Qed.

End Where.

(** C1 (WHERE resolution), at SELECT * FROM t WHERE x = 1 AND y = 2.
    [walkWhereParts] does build the node of the logical operator, with
    the comparison read so far on its left and the comparison parsed from
    the remainder on its right.  But it answers that node itself and not
    an object [{ value, index }]: [walkWhere], which reads [value] and
    [index] from the answer, puts [undefined] under WHERE and leaves the
    cursor undefined, so the tree of the query has no predicate.  With a
    second logical operator the right operand of the first one is
    [undefined] for the same reason. *)
Theorem where_with_logical_operator_is_dropped :
  forall fuel : nat,
    (12 <= fuel)%nat ->
    let walk := Select.walkModel Select.specConstants fuel in
    Select.walkWhereParts Select.specConstants walk fuel whereQuery (VNum 5)
    = Return
        (VObj [("type", VStr "AND");
               ("left",
                comparison "=" (identifier "x") (mkToken "NUMBER" "1"));
               ("right",
                comparison "=" (identifier "y") (mkToken "NUMBER" "2"))])
    /\ Select.walkWhere Select.specConstants walk fuel whereQuery (VNum 4)
       = Return (VObj [("type", VStr "WHERE"); ("value", VUndefined)],
                 VUndefined)
    /\ Select.select Select.specConstants walk fuel whereQuery (VNum 0)
       = Return
           (VObj [("value",
                   selectStarWhere "t"
                     (VObj [("type", VStr "WHERE"); ("value", VUndefined)]));
                  ("index", VNaN)])
    /\ Select.walkWhereParts Select.specConstants walk fuel whereQuery2
         (VNum 5)
       = Return
           (VObj [("type", VStr "AND");
                  ("left",
                   comparison "=" (identifier "x") (mkToken "NUMBER" "1"));
                  ("right", VUndefined)]).
Proof.
  enough_fuel 12. repeat split.
Qed.

(** The theorem with twelve units of fuel. *)
Lemma where_with_logical_operator_witness :
  (12 <= 12)%nat
  /\ Select.walkWhere Select.specConstants
       (Select.walkModel Select.specConstants 12) 12 whereQuery (VNum 4)
     = Return (VObj [("type", VStr "WHERE"); ("value", VUndefined)],
               VUndefined).
Proof.
  split; [apply le_n |].
  exact (proj1 (proj2 (where_with_logical_operator_is_dropped 12 (le_n 12)))).
Defined.

(** ** UNION *)

Section Union.

Variable K : Select.Constants.
Variable walk : list Token -> Value -> Completion Value.

(** Whatever [walk] is, the default export answers either
    [{ value, index }] or, for a union, [{ type, value: { left, right } }]
    whose right operand is the [value] property of what [walk] answered
    for the rest. *)
Lemma select_shape fuel tokens index r :
  Select.select K walk fuel tokens index = Return r ->
  (exists node i, r = VObj [("value", node); ("index", i)])
  \/ (exists kind l next w rt,
         r = VObj [("type", kind);
                   ("value", VObj [("left", l); ("right", rt)])]
         /\ walk tokens next = Return w
         /\ getProp w "value" = Return rt).
Proof.
  unfold Select.select. intros H.
  destruct (Select.walkColumns K walk fuel tokens index)
    as [[columns index1] | |]; try discriminate H. cbn [bind] in H.
  destruct (Select.walkFrom K walk tokens index1)
    as [[from index2] | |]; try discriminate H. cbn [bind] in H.
  destruct (if Select.isWhere K tokens index2 then _ else _)
    as [[where_ index3] | |]; try discriminate H. cbn [bind] in H.
  destruct (Select.isUnion K tokens index3).
  - destruct (Select.getIndexNextSelect K tokens index3) as [next | |];
      try discriminate H. cbn [bind] in H.
    destruct (walk tokens next) as [w | |] eqn:Hw; try discriminate H.
    cbn [bind] in H.
    destruct (getProp w "value") as [rt | |] eqn:Hv; try discriminate H.
    cbn [bind] in H.
    destruct (Select.getUnionType K tokens index3) as [kind | |];
      try discriminate H.
    injection H as <-. right. do 5 eexists. eauto.
  - injection H as <-. left. eauto.
Qed.

(** The [value] property of a union answer is a pair without kind. *)
Lemma union_node_value_has_no_type kind l rt :
  (node <- getProp (VObj [("type", kind);
                          ("value", VObj [("left", l); ("right", rt)])])
                   "value" ;;
   getProp node "type") = Return VUndefined.
Proof. reflexivity. Qed.

End Union.

(** C5 (set-operation chaining), at three SELECTs joined by UNION ALL.
    The answer is nested to the right twice, but only the outer node
    carries a kind: the inner one is the bare pair of its operands.  The
    answer for the rest of the chain is a node [{ type, value }], and the
    wrapping reads its [value] property, as it does for the answer
    [{ value, index }] of a single SELECT. *)
Theorem union_chain_inner_kind_is_dropped :
  forall fuel : nat,
    (12 <= fuel)%nat ->
    Select.walkModel Select.specConstants fuel threeSelects (VNum 0)
    = Return
        (VObj [("type", VStr "UNION_ALL");
               ("value",
                VObj [("left", selectStarNode "a");
                      ("right",
                       VObj [("left", selectStarNode "b");
                             ("right", selectStarNode "c")])])]).
Proof.
  enough_fuel 12. reflexivity.
Qed.

(** The theorem with twelve units of fuel: the inner node has no kind. *)
Lemma union_chain_witness :
  (12 <= 12)%nat
  /\ (v <- Select.walkModel Select.specConstants 12 threeSelects (VNum 0) ;;
      node <- getProp v "value" ;;
      inner <- getProp node "right" ;;
      getProp inner "type") = Return VUndefined.
Proof.
  split; [apply le_n |].
  rewrite (union_chain_inner_kind_is_dropped 12 (le_n 12)). reflexivity.
Defined.

(** ** The SELECT module on the examples of the specification *)

(** The SELECT module on the same queries, with the modelled dispatcher:
    the smoke test, the concatenation of two identifiers, and the
    operator with no right operand, which is refused. *)
Lemma select_module_examples :
  forall fuel : nat,
    (8 <= fuel)%nat ->
    Select.walkModel Select.specConstants fuel (selectStar "t") (VNum 0)
    = Return (VObj [("value", selectStarNode "t"); ("index", VNum 3)])
    /\ (v <- Select.walkModel Select.specConstants fuel concatColumn
               (VNum 0) ;;
        node <- getProp v "value" ;;
        body <- getProp node "value" ;;
        getProp body "columns")
       = Return
           (VArr
              [VObj [("type", VStr "CONCATENATION");
                     ("value",
                      VArr [VObj [("type", VStr "IDENTIFIER");
                                  ("value", VStr "a");
                                  ("alias", VUndefined)];
                            VObj [("type", VStr "IDENTIFIER");
                                  ("value", VStr "b");
                                  ("alias", VUndefined)]]);
                     ("alias", VUndefined)]])
    /\ Select.walkModel Select.specConstants fuel trailingConcatColumn
         (VNum 0)
       = Throw (ErrorJSON "Unsupported column type: " (VArr [])).
Proof. enough_fuel 8. repeat split. Qed.

(** * Further properties *)

(** ** The classifier: keywords and quoted literals *)

(** Upper-casing neither makes nor removes a quote or a parenthesis. *)
Lemma upperChar_special c :
  Ascii.eqb (upperChar c) "'" = Ascii.eqb c "'"
  /\ Ascii.eqb (upperChar c) "(" = Ascii.eqb c "(".
Proof.
  destruct c as [[|] [|] [|] [|] [|] [|] [|] [|]]; vm_compute; split; reflexivity.
Qed.

Lemma startsWith_empty s : startsWith s EmptyString = true.
Proof. now destruct s. Qed.

Lemma startsWith_quote_upper s :
  startsWith (toUpperCase s) "'" = startsWith s "'".
Proof.
  destruct s as [| c s]; [reflexivity |]. cbn [startsWith toUpperCase].
  now rewrite (proj1 (upperChar_special c)), !startsWith_empty.
Qed.

Lemma noChar_open_upper s :
  noChar "(" (toUpperCase s) = noChar "(" s.
Proof.
  unfold noChar. induction s as [| c s IH]; [reflexivity |].
  cbn [allChars toUpperCase].
  now rewrite (proj2 (upperChar_special c)), IH.
Qed.

Lemma indexOfFrom_absent c s i :
  noChar c s = true -> indexOfFrom c s i = -1.
Proof.
  revert i. unfold noChar.
  induction s as [| d s IH]; intros i H; [reflexivity |].
  simpl in *. apply andb_true_iff in H as [Hd Hs].
  apply negb_true_iff in Hd. rewrite Hd. now apply IH.
Qed.

Lemma tokenTypes_key key ty :
  tokenTypes key = Some ty ->
  startsWith key "'" = false /\ noChar "(" key = true.
Proof.
  unfold tokenTypes.
  repeat match goal with
         | |- context [String.eqb key ?k] =>
             destruct (String.eqb_spec key k) as [-> | _];
             [intros _; split; reflexivity |]
         end.
  discriminate.
Qed.

(** No key of the table starts with a quote or holds a parenthesis, so a
    token that upper-cases to a key is neither a string literal nor a
    function call. *)
Lemma classify_keyword token ty :
  tokenTypes (toUpperCase token) = Some ty ->
  classify token = mkToken ty token.
Proof.
  intros H. destruct (tokenTypes_key _ _ H) as [Hq Ho].
  rewrite startsWith_quote_upper in Hq. rewrite noChar_open_upper in Ho.
  unfold classify, isString, isFunctionCall.
  rewrite Hq. cbn [andb]. unfold indexOf.
  rewrite (indexOfFrom_absent _ _ 0 Ho). cbn [Z.leb Z.compare andb].
  now rewrite H.
Qed.

(** X1.  A token that upper-cases to a key of the keyword table has the
    type the table gives for that key, in whatever case it is written, and
    keeps its text as its value. *)
Theorem keyword_lookup_ignores_case :
  forall (token ty : string),
    tokenTypes (toUpperCase token) = Some ty ->
    classify token = mkToken ty token
    /\ value (classify token) = token.
Proof.
  intros token ty H. rewrite (classify_keyword token ty H). now split.
Qed.

(** The theorem at sElEcT. *)
Lemma keyword_lookup_witness :
  tokenTypes (toUpperCase "sElEcT") = Some Type_.SELECT_STATEMENT
  /\ classify "sElEcT" = mkToken Type_.SELECT_STATEMENT "sElEcT".
Proof.
  split; [reflexivity |].
  apply (proj1 (keyword_lookup_ignores_case "sElEcT" _ eq_refl)).
Defined.

(** X2.  Text between two quotes is a string literal whose value is the
    text without the two quotes, whatever the text holds. *)
Theorem quoted_literal_is_unquoted :
  forall body : string,
    classify (String "'" (body ++ "'"))
    = mkToken Type_.STRING_LITERAL body.
Proof.
  intros body. unfold classify, isString.
  change (String "'" (body ++ "'")) with (String "'" body ++ "'").
  rewrite endsWith_append. cbn [startsWith append].
  rewrite Ascii.eqb_refl, startsWith_empty. cbn [andb].
  f_equal. unfold slice. 
  assert (Hlen : len (String "'" (body ++ "'")) = len body + 2).
  { change (String "'" (body ++ "'")) with ("'" ++ (body ++ "'")).
    rewrite !len_append. change (len "'") with 1. lia. }
  rewrite Hlen. pose proof (len_nonneg body) as Hn.
  change (1 <? 0) with false. change (-1 <? 0) with true. cbv iota.
  replace (Z.to_nat (Z.min 1 (len body + 2))) with 1%nat by lia.
  replace (Z.to_nat (Z.max (len body + 2 + -1) 0 - Z.min 1 (len body + 2)))
    with (String.length body) by (rewrite <- to_nat_len; lia).
  cbn [String.substring]. apply substring_prefix.
Qed.

(** ** Function calls: from the text to the node and back *)
Lemma split_append_sep a rest :
  noChar "," a = true ->
  JS.split (a ++ String "," rest) "," = a :: JS.split rest ",".
Proof.
  unfold noChar. induction a as [| c a IH]; intros H.
  - reflexivity.
  - simpl in H. apply andb_true_iff in H as [Hc Ha].
    apply negb_true_iff in Hc. cbn [append JS.split]. rewrite Hc.
    now rewrite (IH Ha).
Qed.

Lemma split_plain a : noChar "," a = true -> JS.split a "," = [a].
Proof.
  unfold noChar. induction a as [| c a IH]; intros H; [reflexivity |].
  simpl in H. apply andb_true_iff in H as [Hc Ha].
  apply negb_true_iff in Hc. cbn [JS.split]. rewrite Hc.
  now rewrite (IH Ha).
Qed.

Lemma split_join args :
  args <> [] ->
  Forall (fun a => noChar "," a = true) args ->
  JS.split (join args ",") "," = args.
Proof.
  intros Hne H. induction H as [| a r Ha Hr IH]; [congruence |].
  destruct r as [| b r]; [now apply split_plain |].
  change (join (a :: b :: r) ",") with (a ++ String "," (join (b :: r) ",")).
  rewrite (split_append_sep _ _ Ha). f_equal. apply IH. discriminate.
Qed.

Lemma allChars_join p args :
  p ","%char = true ->
  Forall (fun a => allChars p a = true) args ->
  allChars p (join args ",") = true.
Proof.
  intros Hp H. induction H as [| a r Ha Hr IH]; [reflexivity |].
  destruct r as [| b r]; [exact Ha |].
  change (join (a :: b :: r) ",") with (a ++ String "," (join (b :: r) ",")).
  rewrite allChars_append, Ha. cbn [allChars andb]. now rewrite Hp.
Qed.

(** The text of a call to plain arguments is classified as a function call
    and decomposes into the name and the arguments it was made of. *)
Lemma functionCallText_parts name args :
  name <> EmptyString ->
  allChars isWordChar name = true ->
  args <> [] ->
  Forall (fun a => plainArgument a = true) args ->
  classify (functionCallText name args)
  = mkToken Type_.FUNCTION_CALL (functionCallText name args)
  /\ Parser.functionCallNode (functionCallText name args)
     = VObj [("type", VStr "function_call");
             ("name", VStr name);
             ("arguments", VArr (map VStr args))].
Proof.
  intros Hne Hw Hargs Hplain.
  assert (Hcomma : Forall (fun a => noChar "," a = true) args).
  { eapply Forall_impl; [| exact Hplain]. intros a Ha.
    unfold plainArgument in Ha.
    now apply andb_true_iff in Ha as [Ha _];
      apply andb_true_iff in Ha as [Ha _]. }
  assert (Hclose : noChar ")" (join args ",") = true).
  { apply allChars_join; [reflexivity |].
    eapply Forall_impl; [| exact Hplain]. intros a Ha.
    unfold plainArgument in Ha.
    now apply andb_true_iff in Ha as [Ha _];
      apply andb_true_iff in Ha as [_ Ha]. }
  assert (Hline : allChars (fun c => negb (isLineTerminator c))
                           (join args ",") = true).
  { apply allChars_join; [reflexivity |].
    eapply Forall_impl; [| exact Hplain]. intros a Ha.
    unfold plainArgument in Ha. now apply andb_true_iff in Ha as [_ Ha]. }
  destruct (wordChars_noChar _ Hw) as [Ho Hc].
  unfold functionCallText. split.
  - now apply classify_functionCall.
  - rewrite (functionCallNode_flat name (join args ",") Ho Hc Hclose).
    now rewrite (split_join args Hargs Hcomma).
Qed.

(** X3.  A call written from a name of word characters and a non-empty
    list of arguments without comma, right parenthesis or line terminator
    parses to the function-call node of that name and those arguments. *)
Theorem function_call_round_trip :
  forall (name : string) (args : list string),
    name <> EmptyString ->
    allChars isWordChar name = true ->
    args <> [] ->
    Forall (fun a => plainArgument a = true) args ->
    Parser.parse [functionCallText name args]
    = Return (VObj [("type", VStr "function_call");
                    ("name", VStr name);
                    ("arguments", VArr (map VStr args))]).
Proof.
  intros name args Hne Hw Hargs Hplain.
  destruct (functionCallText_parts name args Hne Hw Hargs Hplain)
    as [Hcls Hnode].
  unfold Parser.parse, Parser.syntaticAnalysis, lexicalAnalysis.
  cbn [map]. rewrite Hcls. cbn. now rewrite Hnode.
Qed.

(** The theorem at concat(a,'b',): the third argument is empty. *)
Lemma function_call_round_trip_witness :
  Parser.parse ["concat(a,'b',)"]
  = Return (VObj [("type", VStr "function_call");
                  ("name", VStr "concat");
                  ("arguments", VArr [VStr "a"; VStr "'b'"; VStr EmptyString])]).
Proof.
  apply (function_call_round_trip "concat" ["a"; "'b'"; EmptyString]);
    [discriminate | reflexivity | discriminate | repeat constructor].
Defined.

(** ** Inputs the builder cannot start on *)
Lemma classify_empty : classify EmptyString = mkToken Type_.EMPTY_SPACE EmptyString.
Proof. reflexivity. Qed.

Lemma filter_blank tokens :
  Forall (fun s => s = EmptyString) tokens ->
  filter Parser.removeEmptySpace (lexicalAnalysis tokens) = [].
Proof.
  induction 1 as [| s r Hs Hr IH]; [reflexivity |].
  subst s. cbn [lexicalAnalysis map]. rewrite classify_empty.
  cbn [filter]. exact IH.
Qed.

(** X5.  On no token at all, or on empty strings only, nothing is left
    after the filter and [walk] reads the type of a token that is not
    there: [TypeError]. *)
Theorem blank_input_raises_TypeError :
  forall tokens : list string,
    Forall (fun s => s = EmptyString) tokens ->
    Parser.parse tokens = Throw TypeError.
Proof.
  intros tokens H. unfold Parser.parse, Parser.syntaticAnalysis.
  now rewrite (filter_blank tokens H).
Qed.

(** The theorem at the empty list and at two empty strings. *)
Lemma blank_input_witness :
  Parser.parse [] = Throw TypeError
  /\ Parser.parse [EmptyString; EmptyString] = Throw TypeError.
Proof.
  split.
  - apply (blank_input_raises_TypeError []). constructor.
  - apply (blank_input_raises_TypeError [EmptyString; EmptyString]).
    repeat constructor.
Defined.

(** X6.  When the first token left after the filter is Unknown, [walk]
    reads the type of the token before it, at index -1: [TypeError]. *)
Theorem leading_identifier_raises_TypeError :
  forall (tokens : list string) (first : Token) (rest : list Token),
    filter Parser.removeEmptySpace (lexicalAnalysis tokens) = first :: rest ->
    type first = Type_.UNKNOWN ->
    Parser.parse tokens = Throw TypeError.
Proof.
  intros tokens first rest Hts Hty.
  unfold Parser.parse, Parser.syntaticAnalysis. rewrite Hts.
  unfold Parser.enoughFuel. rewrite walk_S. cbn [at_ Z.ltb Z.compare Z.to_nat nth_error].
  rewrite Hty. reflexivity.
Qed.

(** The theorem at users SELECT * FROM t. *)
Lemma leading_identifier_witness :
  Parser.parse ["users"; "SELECT"; "*"; "FROM"; "t"] = Throw TypeError.
Proof.
  apply (leading_identifier_raises_TypeError
           ["users"; "SELECT"; "*"; "FROM"; "t"]
           (mkToken Type_.UNKNOWN "users")
           (filter Parser.removeEmptySpace
              (lexicalAnalysis ["SELECT"; "*"; "FROM"; "t"])));
    reflexivity.
Defined.

Lemma isSkipped_types t :
  isSkipped t = true ->
  type t = Type_.WHERE_STATEMENT \/ type t = Type_.ORDER_BY_STATEMENT
  \/ type t = Type_.LIMIT_STATEMENT \/ type t = Type_.COMMA_DELIMITER.
Proof.
  unfold isSkipped. cbn [existsb]. rewrite !orb_true_iff, !String.eqb_eq.
  intuition discriminate.
Qed.

(** On WHERE, ORDER BY, LIMIT and comma tokens [walk] moves on, and falls
    off its end on the last one. *)
Lemma walk_skipped fuel :
  forall tokens index,
    Forall (fun t => isSkipped t = true) tokens ->
    0 <= index < Z.of_nat (length tokens) ->
    (remaining tokens index <= fuel)%nat ->
    Parser.walk fuel tokens index = Return VUndefined.
Proof.
  induction fuel as [| fuel IH]; intros tokens index Hskip Hi Hfuel.
  - unfold remaining in Hfuel. lia.
  - rewrite walk_S.
    destruct (at_ tokens index) as [token |] eqn:Hat.
    + assert (Hin : In token tokens).
      { unfold at_ in Hat. destruct (index <? 0); [discriminate |].
        eapply nth_error_In; eauto. }
      rewrite Forall_forall in Hskip. pose proof (Hskip _ Hin) as Ht.
      apply isSkipped_types in Ht.
      assert (Hbr :
                String.eqb (type token) Type_.FUNCTION_CALL = false
                /\ String.eqb (type token) Type_.CONCAT_OPERATOR = false
                /\ String.eqb (type token) Type_.STRING_LITERAL = false
                /\ String.eqb (type token) Type_.ASTERISK = false
                /\ String.eqb (type token) Type_.FROM_STATEMENT = false
                /\ String.eqb (type token) Type_.UNKNOWN = false
                /\ String.eqb (type token) Type_.SELECT_STATEMENT = false).
      { destruct Ht as [-> | [-> | [-> | ->]]]; repeat split; reflexivity. }
      destruct Hbr as (-> & -> & -> & -> & -> & -> & ->).
      destruct (Z.ltb_spec index (Z.of_nat (length tokens) - 1)).
      * apply IH; [now apply Forall_forall | lia |].
        unfold remaining in *. lia.
      * reflexivity.
    + exfalso. unfold at_ in Hat. destruct (Z.ltb_spec index 0); [lia |].
      apply nth_error_None in Hat. lia.
Qed.

(** X7.  When every token left after the filter is a WHERE, ORDER BY or
    LIMIT keyword or a comma, [parse] returns [undefined] and raises
    nothing. *)
Theorem clause_keywords_alone_return_undefined :
  forall tokens : list string,
    filter Parser.removeEmptySpace (lexicalAnalysis tokens) <> [] ->
    Forall (fun t => isSkipped t = true)
           (filter Parser.removeEmptySpace (lexicalAnalysis tokens)) ->
    Parser.parse tokens = Return VUndefined.
Proof.
  intros tokens Hne Hskip. unfold Parser.parse, Parser.syntaticAnalysis.
  apply walk_skipped; [exact Hskip | |].
  - destruct (filter _ _); [congruence |]. simpl length. lia.
  - unfold remaining, Parser.enoughFuel. lia.
Qed.

(** The theorem at where, LIMIT, a comma and order by. *)
Lemma clause_keywords_witness :
  Parser.parse ["where"; EmptyString; "LIMIT"; ","; "order by"]
  = Return VUndefined.
Proof.
  apply (clause_keywords_alone_return_undefined
           ["where"; EmptyString; "LIMIT"; ","; "order by"]).
  - discriminate.
  - repeat constructor.
Defined.

(** ** The column list of a SELECT *)

#[local] Arguments Parser.walk : simpl never.
#[local] Arguments Parser.selectLoop : simpl never.

Lemma advance_list {A : Type} (pre : list A) x s :
  (pre ++ x :: s = (pre ++ [x]) ++ s)%list.
Proof. now rewrite <- app_assoc. Qed.

Lemma advance_index {A : Type} (pre : list A) x :
  Z.of_nat (length pre) + 1 = Z.of_nat (length (pre ++ [x])).
Proof. rewrite length_app. simpl. lia. Qed.

Lemma at_before {A : Type} (pre : list A) l s :
  at_ ((pre ++ [l]) ++ s) (Z.of_nat (length (pre ++ [l])) - 1) = Some l.
Proof.
  rewrite <- advance_index, <- advance_list.
  replace (Z.of_nat (length pre) + 1 - 1) with (Z.of_nat (length pre)) by lia.
  apply at_app.
Qed.

Lemma walkAt_next fuel pre x s :
  Parser.walk fuel (pre ++ x :: s) (Z.of_nat (length pre) + 1)
  = walkAt fuel (pre ++ [x]) s.
Proof. unfold walkAt. now rewrite <- advance_index, <- advance_list. Qed.

Lemma loopAt_next fuel pre x s columns parts alias :
  Parser.selectLoop fuel (pre ++ x :: s) (Z.of_nat (length pre) + 1)
    columns parts alias
  = loopAt fuel (pre ++ [x]) s columns parts alias.
Proof. unfold loopAt. now rewrite <- advance_index, <- advance_list. Qed.

Lemma isAs_eqb text :
  String.eqb (toUpperCase text) ReservedWord.AS = isAs text.
Proof. reflexivity. Qed.

(** [walk] on an identifier, on the alias that follows AS, on AS, and on
    the source that follows FROM. *)
Lemma walkAt_name fuel pre l name s :
  String.eqb (type l) Type_.UNKNOWN && isAs (value l) = false ->
  String.eqb (type l) Type_.FROM_STATEMENT = false ->
  isAs name = false ->
  walkAt (S fuel) (pre ++ [l]) (unknown name :: s)
  = Return (objectValue name).
Proof.
  intros Hl Hf Hn. unfold walkAt. rewrite walk_S, at_app, at_before.
  cbn. rewrite !isAs_eqb, Hl, Hn, Hf. reflexivity.
Qed.

Lemma walkAt_after_as fuel pre asWord alias s :
  isAs asWord = true ->
  walkAt (S fuel) (pre ++ [unknown asWord]) (unknown alias :: s)
  = Return (VObj [("type", VStr "alias_value"); ("value", VStr alias)]).
Proof.
  intros Hw. unfold walkAt. rewrite walk_S, at_app, at_before.
  cbn. rewrite !isAs_eqb, Hw. reflexivity.
Qed.

Lemma walkAt_as fuel pre name asWord alias s :
  isAs name = false ->
  isAs asWord = true ->
  walkAt (S (S fuel)) (pre ++ [unknown name])
         (unknown asWord :: unknown alias :: s)
  = Return (aliasNode alias).
Proof.
  intros Hn Hw. unfold walkAt. rewrite walk_S, at_app, at_before.
  cbn. rewrite !isAs_eqb, Hn, Hw. cbn.
  rewrite walkAt_next, (walkAt_after_as fuel _ _ _ _ Hw). reflexivity.
Qed.

Lemma walkAt_source fuel pre from source s :
  type from = Type_.FROM_STATEMENT ->
  isAs source = false ->
  walkAt (S fuel) (pre ++ [from]) (unknown source :: s)
  = Return (VObj [("type", VStr "from_object"); ("value", VStr source)]).
Proof.
  intros Hf Hs. unfold walkAt. rewrite walk_S, at_app, at_before.
  cbn. rewrite !isAs_eqb, Hf, Hs. reflexivity.
Qed.

(** One turn of the loop on an identifier, on AS and its alias, on a comma
    and on FROM. *)
Lemma loopAt_name fuel pre l name s columns parts alias :
  String.eqb (type l) Type_.UNKNOWN && isAs (value l) = false ->
  String.eqb (type l) Type_.FROM_STATEMENT = false ->
  isAs name = false ->
  loopAt (S (S fuel)) (pre ++ [l]) (unknown name :: s) columns parts alias
  = loopAt (S fuel) ((pre ++ [l]) ++ [unknown name]) s columns
      (parts ++ [objectValue name]) alias.
Proof.
  intros Hl Hf Hn. unfold loopAt at 1. rewrite selectLoop_S, at_app.
  cbn. rewrite isAs_eqb, Hn. cbn.
  fold (walkAt (S fuel) (pre ++ [l]) (unknown name :: s)).
  rewrite (walkAt_name fuel pre l name s Hl Hf Hn). cbn.
  now rewrite loopAt_next.
Qed.

Lemma loopAt_alias fuel pre name asWord alias s columns parts alias0 :
  isAs name = false ->
  isAs asWord = true ->
  isAs alias = false ->
  loopAt (S (S (S fuel))) (pre ++ [unknown name])
         (unknown asWord :: unknown alias :: s) columns parts alias0
  = loopAt (S fuel)
      (((pre ++ [unknown name]) ++ [unknown asWord]) ++ [unknown alias]) s
      columns parts (aliasNode alias).
Proof.
  intros Hn Hw Ha. unfold loopAt at 1. rewrite selectLoop_S, at_app.
  cbn. rewrite isAs_eqb, Hw. cbn.
  fold (walkAt (S (S fuel)) (pre ++ [unknown name])
               (unknown asWord :: unknown alias :: s)).
  rewrite (walkAt_as fuel pre name asWord alias s Hn Hw). cbn [bind].
  rewrite loopAt_next. unfold loopAt at 1. rewrite selectLoop_S, at_app.
  cbn. rewrite isAs_eqb, Ha. cbn.
  fold (walkAt (S fuel) ((pre ++ [unknown name]) ++ [unknown asWord])
               (unknown alias :: s)).
  rewrite (walkAt_after_as fuel _ asWord alias s Hw). cbn.
  now rewrite loopAt_next.
Qed.

Lemma loopAt_comma fuel pre comma_ name s columns alias :
  type comma_ = Type_.COMMA_DELIMITER ->
  loopAt (S fuel) pre (comma_ :: s) columns [objectValue name] alias
  = loopAt fuel (pre ++ [comma_]) s
      (columns ++ [Parser.column (objectValue name) alias]) [] VNull.
Proof.
  intros Hc. unfold loopAt at 1. rewrite selectLoop_S, at_app, Hc.
  cbn. now rewrite loopAt_next.
Qed.

Lemma loopAt_from fuel pre from source columns parts alias :
  type from = Type_.FROM_STATEMENT ->
  isAs source = false ->
  (length parts <= 1)%nat ->
  Forall (fun p => exists name, p = objectValue name) parts ->
  loopAt (S (S fuel)) pre [from; unknown source] columns parts alias
  = Return (selectOf (columns ++ map (fun p => Parser.column p alias) parts)
                     source).
Proof.
  intros Hf Hs Hlen Hparts. unfold loopAt. rewrite selectLoop_S, at_app, Hf.
  cbn [String.eqb negb]. change (String.eqb Type_.FROM_STATEMENT Type_.FROM_STATEMENT) with true.
  cbn [negb]. rewrite walkAt_next.
  rewrite (walkAt_source fuel pre from source [] Hf Hs).
  destruct parts as [| p [| q r]]; [| | simpl in Hlen; lia].
  - cbn. now rewrite app_nil_r.
  - inversion Hparts as [| ? ? [name ->] _]; subst. reflexivity.
Qed.

Lemma isIdentifier_isAs name : isIdentifier name = true -> isAs name = false.
Proof.
  unfold isIdentifier. intros H. apply andb_true_iff in H as [_ H].
  now apply negb_true_iff in H.
Qed.

Lemma loopAt_column fuel pre l c rest columns :
  plainBefore l ->
  wellFormedColumn c = true ->
  exists name alias,
    columnNode c = Parser.column (objectValue name) alias
    /\ loopAt (length (columnTokens c) + S fuel) (pre ++ [l])
              (columnTokens c ++ rest) columns [] VNull
       = loopAt (S fuel) ((pre ++ [l]) ++ columnTokens c) rest columns
                [objectValue name] alias.
Proof.
  intros [Hl Hf] Hwf. destruct c as [name [[asWord alias] |]].
  - cbn in Hwf. apply andb_true_iff in Hwf as [Hwf Ha].
    apply andb_true_iff in Hwf as [Hn Hw].
    apply isIdentifier_isAs in Hn, Ha.
    exists name, (aliasNode alias). split; [reflexivity |].
    cbn [columnTokens columnText map length Nat.add app].
    rewrite (loopAt_name _ pre l name _ columns [] VNull Hl Hf Hn).
    cbn [app].
    rewrite (loopAt_alias fuel (pre ++ [l]) name asWord alias rest
               columns [objectValue name] VNull Hn Hw Ha).
    now rewrite <- !app_assoc.
  - cbn in Hwf. apply isIdentifier_isAs in Hwf.
    exists name, VNull. split; [reflexivity |].
    cbn [columnTokens columnText map length Nat.add app].
    destruct fuel as [| fuel].
    + now rewrite (loopAt_name _ pre l name rest columns [] VNull Hl Hf Hwf).
    + now rewrite (loopAt_name _ pre l name rest columns [] VNull Hl Hf Hwf).
Qed.

Lemma plainBefore_comma : plainBefore commaToken.
Proof. split; reflexivity. Qed.

(** The loop over a non-empty list of columns, up to the source. *)
Lemma loopAt_columns from source cs :
  type from = Type_.FROM_STATEMENT ->
  isAs source = false ->
  cs <> [] ->
  Forall (fun c => wellFormedColumn c = true) cs ->
  forall fuel pre l columns,
    plainBefore l ->
    (length (columnListTokens cs) + 2 <= fuel)%nat ->
    loopAt fuel (pre ++ [l]) (columnListTokens cs ++ [from; unknown source])
           columns [] VNull
    = Return (selectOf (columns ++ map columnNode cs) source).
Proof.
  intros Hfrom Hsrc Hne Hwf.
  induction Hwf as [| c r Hc Hr IH]; [congruence |].
  intros fuel pre l columns Hl Hfuel.
  destruct r as [| c2 r].
  - cbn [columnListTokens] in *.
    replace fuel
      with (length (columnTokens c) + S (S (fuel - length (columnTokens c) - 2)))%nat
      by lia.
    destruct (loopAt_column (S (fuel - length (columnTokens c) - 2)) pre l c
                [from; unknown source] columns Hl Hc)
      as (name & alias & Hnode & ->).
    rewrite (loopAt_from _ _ from source columns [objectValue name] alias
               Hfrom Hsrc (le_n 1)).
    + cbn [map]. now rewrite Hnode.
    + constructor; [now exists name | constructor].
  - change (columnListTokens (c :: c2 :: r))
      with (columnTokens c ++ commaToken :: columnListTokens (c2 :: r))%list
      in *.
    rewrite length_app in Hfuel. cbn [length] in Hfuel.
    rewrite <- app_assoc. cbn [app].
    replace fuel
      with (length (columnTokens c)
            + S (S (fuel - length (columnTokens c) - 2)))%nat by lia.
    destruct (loopAt_column (S (fuel - length (columnTokens c) - 2)) pre l c
                (commaToken :: columnListTokens (c2 :: r)
                 ++ [from; unknown source]) columns Hl Hc)
      as (name & alias & Hnode & ->).
    rewrite (loopAt_comma _ _ commaToken name _ columns alias eq_refl).
    rewrite (IH ltac:(discriminate) _ _ commaToken _ plainBefore_comma)
      by lia.
    cbn [map]. now rewrite Hnode, <- app_assoc.
Qed.

Lemma classify_identifier name :
  isIdentifier name = true -> classify name = unknown name.
Proof.
  unfold isIdentifier, classify. intros H.
  apply andb_true_iff in H as [H _].
  destruct (isString name); [discriminate H |].
  destruct (isFunctionCall name); [discriminate H |].
  cbn [type] in H. apply String.eqb_eq in H. unfold unknown. now rewrite H.
Qed.

Lemma classify_as asWord : isAs asWord = true -> classify asWord = unknown asWord.
Proof.
  unfold isAs. intros H. apply String.eqb_eq in H.
  unfold classify, isString, isFunctionCall, indexOf.
  rewrite <- startsWith_quote_upper, H.
  assert (Ho : noChar "(" asWord = true)
    by (rewrite <- noChar_open_upper, H; reflexivity).
  rewrite (indexOfFrom_absent _ _ 0 Ho). reflexivity.
Qed.

Lemma lex_column c :
  wellFormedColumn c = true ->
  lexicalAnalysis (columnText c) = columnTokens c.
Proof.
  destruct c as [name [[asWord alias] |]]; cbn; intros H.
  - apply andb_true_iff in H as [H Ha]. apply andb_true_iff in H as [Hn Hw].
    now rewrite (classify_identifier _ Hn), (classify_as _ Hw),
      (classify_identifier _ Ha).
  - now rewrite (classify_identifier _ H).
Qed.

Lemma lex_columns cs :
  Forall (fun c => wellFormedColumn c = true) cs ->
  lexicalAnalysis (columnListText cs) = columnListTokens cs.
Proof.
  induction 1 as [| c r Hc Hr IH]; [reflexivity |].
  destruct r as [| c2 r]; [now apply lex_column |].
  change (columnListText (c :: c2 :: r))
    with (columnText c ++ "," :: columnListText (c2 :: r))%list.
  change (columnListTokens (c :: c2 :: r))
    with (columnTokens c ++ commaToken :: columnListTokens (c2 :: r))%list.
  pose proof (lex_column c Hc) as Hcol.
  unfold lexicalAnalysis in *. rewrite map_app. cbn [map].
  now rewrite IH, Hcol.
Qed.

Lemma filter_keeps l :
  Forall (fun t => Parser.removeEmptySpace t = true) l ->
  filter Parser.removeEmptySpace l = l.
Proof.
  induction 1 as [| t r Ht Hr IH]; [reflexivity |].
  cbn [filter]. now rewrite Ht, IH.
Qed.

Lemma columnListTokens_kept cs :
  Forall (fun t => Parser.removeEmptySpace t = true) (columnListTokens cs).
Proof.
  induction cs as [| c r IH]; [constructor |].
  assert (Hc : Forall (fun t => Parser.removeEmptySpace t = true)
                      (columnTokens c)).
  { unfold columnTokens. apply Forall_map. apply Forall_forall. now intros. }
  destruct r as [| c2 r]; [exact Hc |].
  change (columnListTokens (c :: c2 :: r))
    with (columnTokens c ++ commaToken :: columnListTokens (c2 :: r))%list.
  apply Forall_app. split; [exact Hc |]. now constructor.
Qed.

Lemma walk_select fuel sel s :
  type sel = Type_.SELECT_STATEMENT ->
  Parser.walk (S fuel) (sel :: s) 0 = loopAt fuel ([] ++ [sel]) s [] [] VNull.
Proof.
  intros Hsel. unfold loopAt. rewrite walk_S.
  cbn [at_ Z.ltb Z.compare Z.to_nat nth_error]. rewrite Hsel. reflexivity.
Qed.

Lemma loopAt_from_ge fuel pre from source parts alias :
  type from = Type_.FROM_STATEMENT ->
  isAs source = false ->
  (2 <= fuel)%nat ->
  (length parts <= 1)%nat ->
  Forall (fun p => exists name, p = objectValue name) parts ->
  loopAt fuel pre [from; unknown source] [] parts alias
  = Return (selectOf (map (fun p => Parser.column p alias) parts) source).
Proof.
  intros Hf Hs Hfuel Hlen Hparts.
  destruct fuel as [| [| fuel]]; [lia | lia |].
  now rewrite (loopAt_from fuel pre from source [] parts alias Hf Hs Hlen Hparts).
Qed.

(** X8.  SELECT, columns separated by commas, FROM and a source: [parse]
    answers a select node with one column per written column, in order,
    each with the value of its name and with its alias when AS gives one
    ([null] otherwise), and with the source.  SELECT and FROM may be in
    any case; with no column at all the list of columns is empty. *)
Theorem select_column_list :
  forall (selectWord fromWord : string) (cs : list ColumnText)
         (source : string),
    toUpperCase selectWord = "SELECT" ->
    toUpperCase fromWord = "FROM" ->
    Forall (fun c => wellFormedColumn c = true) cs ->
    isIdentifier source = true ->
    Parser.parse (selectWord :: columnListText cs ++ [fromWord; source])
    = Return (selectOf (map columnNode cs) source).
Proof.
  intros selectWord fromWord cs source Hsel Hfrom Hwf Hsrc.
  unfold Parser.parse, Parser.syntaticAnalysis.
  assert (Hlex : lexicalAnalysis (selectWord :: columnListText cs
                                  ++ [fromWord; source])
                 = mkToken Type_.SELECT_STATEMENT selectWord
                   :: columnListTokens cs
                   ++ [mkToken Type_.FROM_STATEMENT fromWord; unknown source]).
  { unfold lexicalAnalysis. cbn [map]. rewrite map_app. cbn [map].
    fold (lexicalAnalysis (columnListText cs)). rewrite (lex_columns cs Hwf).
    rewrite (classify_keyword selectWord Type_.SELECT_STATEMENT)
      by (now rewrite Hsel).
    rewrite (classify_keyword fromWord Type_.FROM_STATEMENT)
      by (now rewrite Hfrom).
    now rewrite (classify_identifier source Hsrc). }
  rewrite Hlex. rewrite filter_keeps.
  2:{ constructor; [reflexivity |]. apply Forall_app. split.
      - apply columnListTokens_kept.
      - repeat constructor. }
  apply isIdentifier_isAs in Hsrc.
  unfold Parser.enoughFuel. rewrite walk_select; [| reflexivity].
  destruct cs as [| c r].
  - cbn [columnListTokens app map].
    apply loopAt_from_ge;
      [reflexivity | exact Hsrc | cbn [length]; lia | apply Nat.le_0_l
      | constructor].
  - apply (loopAt_columns (mkToken Type_.FROM_STATEMENT fromWord) source
             (c :: r) eq_refl Hsrc ltac:(discriminate) Hwf _ [] _ []).
    + split; reflexivity.
    + cbn [length]. rewrite length_app. cbn [length]. lia.
Qed.

(** The theorem at select a as x , b From t. *)
Lemma select_column_list_witness :
  Parser.parse ["select"; "a"; "as"; "x"; ","; "b"; "From"; "t"]
  = Return (selectOf
              [Parser.column (objectValue "a") (aliasNode "x");
               Parser.column (objectValue "b") VNull] "t").
Proof.
  apply (select_column_list "select" "From"
           [("a", Some ("as", "x")); ("b", None)] "t");
    try reflexivity.
  repeat constructor.
Defined.

(** ** Empty strings *)

(** X4.  Empty strings do not count: [parse] answers the same with and
    without them. *)
Theorem empty_strings_are_transparent :
  forall tokens : list string,
    Parser.parse tokens = Parser.parse (filter nonEmpty tokens).
Proof.
  intros tokens. unfold Parser.parse, Parser.syntaticAnalysis.
  assert (H : filter Parser.removeEmptySpace (lexicalAnalysis tokens)
              = filter Parser.removeEmptySpace
                  (lexicalAnalysis (filter nonEmpty tokens))).
  { induction tokens as [| s r IH]; [reflexivity |].
    cbn [filter]. unfold nonEmpty at 1.
    destruct (String.eqb_spec s EmptyString) as [-> | Hs]; cbn [negb].
    - cbn [lexicalAnalysis map]. rewrite classify_empty. cbn [filter].
      exact IH.
    - unfold lexicalAnalysis in *. cbn [map filter]. now rewrite IH. }
  now rewrite H.
Qed.

#[local] Arguments Parser.functionCallNode : simpl never.

(** ** A function call as a column *)
Lemma functionCallNode_type text :
  getProp (Parser.functionCallNode text) "type"
  = Return (VStr "function_call").
Proof. reflexivity. Qed.

Lemma loopAt_functionCall fuel pre text s columns parts alias :
  loopAt (S (S fuel)) pre (mkToken Type_.FUNCTION_CALL text :: s)
         columns parts alias
  = loopAt (S fuel) (pre ++ [mkToken Type_.FUNCTION_CALL text]) s columns
      (parts ++ [Parser.functionCallNode text]) alias.
Proof.
  unfold loopAt at 1. rewrite selectLoop_S, at_app. cbn.
  rewrite walk_S, at_app. cbn. rewrite functionCallNode_type. cbn.
  now rewrite loopAt_next.
Qed.

(** X9.  A function call that is the only part of a column keeps its type
    but loses its name and its arguments: [processColumnValueFromParts]
    copies [type] and [value], and the node [walk] built has no [value]. *)
Theorem function_call_column_loses_its_parts :
  forall (name : string) (args : list string) (source : string),
    name <> EmptyString ->
    allChars isWordChar name = true ->
    args <> [] ->
    Forall (fun a => plainArgument a = true) args ->
    isIdentifier source = true ->
    Parser.parse ["SELECT"; functionCallText name args; "FROM"; source]
    = Return (selectOf
                [Parser.column
                   (VObj [("type", VStr "function_call");
                          ("value", VUndefined)])
                   VNull]
                source).
Proof.
  intros name args source Hne Hw Hargs Hplain Hsrc.
  destruct (functionCallText_parts name args Hne Hw Hargs Hplain)
    as [Hcls Hnode].
  unfold Parser.parse, Parser.syntaticAnalysis, lexicalAnalysis.
  cbn [map]. rewrite Hcls, (classify_identifier source Hsrc).
  change (classify "SELECT") with (mkToken Type_.SELECT_STATEMENT "SELECT").
  change (classify "FROM") with (mkToken Type_.FROM_STATEMENT "FROM").
  apply isIdentifier_isAs in Hsrc.
  set (text := functionCallText name args) in *.
  cbn [filter Parser.removeEmptySpace type String.eqb Ascii.eqb Bool.eqb
       negb unknown Type_.SELECT_STATEMENT Type_.FUNCTION_CALL
       Type_.FROM_STATEMENT Type_.UNKNOWN Type_.EMPTY_SPACE].
  unfold Parser.enoughFuel. cbn [length Nat.mul Nat.add].
  rewrite walk_select by reflexivity.
  rewrite loopAt_functionCall. unfold loopAt.
  rewrite selectLoop_S, at_app. cbn [app].
  rewrite Hnode. cbn. rewrite walk_S. cbn.
  change (Pos.to_nat 3) with 3%nat. change (Pos.to_nat 2) with 2%nat. cbn.
  unfold isAs in Hsrc. now rewrite Hsrc.
Qed.

(** The theorem at SELECT upper(name) FROM users. *)
Lemma function_call_column_witness :
  Parser.parse ["SELECT"; "upper(name)"; "FROM"; "users"]
  = Return (selectOf
              [Parser.column
                 (VObj [("type", VStr "function_call");
                        ("value", VUndefined)])
                 VNull]
              "users").
Proof.
  apply (function_call_column_loses_its_parts "upper" ["name"] "users");
    [discriminate | reflexivity | discriminate | repeat constructor
    | reflexivity].
Defined.

(** ** The SELECT module, for every choice of the imported names *)

Section SelectModule.

Variable K : Select.Constants.

(** X11.  [splitTokensByConcatOperator] answers one group more than there
    are operators; no group holds an operator; the groups put end to end
    are the parts without the operators, in order. *)
Theorem splitTokensByConcatOperator_partition :
  forall arr : list Value,
    Forall (fun v => defined v = true) arr ->
    exists groups,
      Select.splitTokensByConcatOperator K arr = Return groups
      /\ length groups = S (length (filter (isOperator K) arr))
      /\ Forall (Forall (fun v => isOperator K v = false)) groups
      /\ concat groups = filter (fun v => negb (isOperator K v)) arr.
Proof.
  intros arr Hdef. exists (splitOn (isOperator K) arr).
  split; [now apply splitTokensByConcatOperator_spec |].
  split; [apply splitOn_length |].
  split; [apply splitOn_groups | apply splitOn_concat].
Qed.

Lemma processColumn_group_ends group alias :
  Forall (fun v => defined v = true) group ->
  existsb (isOperator K) group = false ->
  Select.processColumn K 1 group alias <> OutOfFuel.
Proof.
  intros Hdef Hno. cbn [Select.processColumn].
  rewrite (someM_isConcat K group Hdef), Hno. cbn [bind].
  repeat match goal with
         | |- (if ?b then _ else _) <> _ => destruct b
         | |- bind _ _ <> _ => apply bind_not_OutOfFuel; [| intro]
         | |- getProp _ _ <> _ => apply getProp_not_OutOfFuel
         | |- _ => discriminate
         end.
Qed.

Lemma mapM_not_OutOfFuel {A B : Type} (f : A -> Completion B) l :
  Forall (fun x => f x <> OutOfFuel) l -> mapM f l <> OutOfFuel.
Proof.
  induction 1 as [| x r Hx Hr IH]; cbn [mapM]; [discriminate |].
  apply bind_not_OutOfFuel; [exact Hx | intro].
  apply bind_not_OutOfFuel; [exact IH | discriminate].
Qed.

(** X13.  [processColumn] calls itself at most one level deep, on groups
    that hold no operator: two units of fuel give its answer, and more
    fuel gives the same. *)
Theorem processColumn_two_levels :
  forall (parts : list Value) (alias : Value) (fuel : nat),
    Forall (fun v => defined v = true) parts ->
    Select.processColumn K (S (S fuel)) parts alias
    = Select.processColumn K 2 parts alias
    /\ Select.processColumn K 2 parts alias <> OutOfFuel.
Proof.
  intros parts alias fuel Hdef.
  destruct (existsb (isOperator K) parts) eqn:Hop.
  - rewrite (processColumn_concatenation K fuel parts alias Hdef Hop),
      (processColumn_concatenation K 0 parts alias Hdef Hop).
    split; [reflexivity |].
    apply bind_not_OutOfFuel; [| discriminate].
    apply mapM_not_OutOfFuel.
    pose proof (splitOn_groups (isOperator K) parts) as Hg.
    pose proof (splitOn_members (isOperator K) _ parts Hdef) as Hm.
    rewrite Forall_forall in *. intros g Hin.
    apply processColumn_group_ends; [now apply Hm |].
    apply existsb_false_Forall. now apply Hg.
  - rewrite (processColumn_group K (S fuel) parts alias Hdef Hop),
      (processColumn_group K 1 parts alias Hdef Hop).
    split; [reflexivity |]. now apply processColumn_group_ends.
Qed.

(** X14.  On a UNION token the kind is UNION ALL exactly when the next
    token is ALL, and the next SELECT is looked for two tokens further in
    that case and one token further otherwise (the two kinds being
    different constants). *)
Theorem next_select_after_union :
  forall (tokens : list Token) (i : Z) (union : Token),
    Select.ReservedWord_UNION K <> Select.Other_UNION_ALL K ->
    at_ tokens i = Some union ->
    type union = Select.ReservedWord_UNION K ->
    let all :=
      strictEq (VStr (Select.ReservedWord_ALL K))
               (Select.typeOpt (at_ tokens (i + 1))) in
    Select.getUnionType K tokens (VNum i)
    = Return (VStr (if all then Select.Other_UNION_ALL K
                    else Select.ReservedWord_UNION K))
    /\ Select.getIndexNextSelect K tokens (VNum i)
       = Return (VNum (if all then i + 2 else i + 1)).
Proof.
  intros tokens i union Hne Hat Hty all.
  assert (Hu : Select.isUnion K tokens (VNum i) = true).
  { unfold Select.isUnion. cbn [Select.tokenAt]. rewrite Hat.
    cbn [Select.typeOpt strictEq]. rewrite Hty. apply String.eqb_refl. }
  assert (Hg : Select.getUnionType K tokens (VNum i)
               = Return (VStr (if all then Select.Other_UNION_ALL K
                               else Select.ReservedWord_UNION K))).
  { unfold Select.getUnionType. rewrite Hu. cbn [andb Select.jsAdd Select.tokenAt].
    fold all. now destruct all. }
  split; [exact Hg |].
  unfold Select.getIndexNextSelect. rewrite Hg. cbn [bind strictEq].
  destruct all.
  - apply String.eqb_neq in Hne. rewrite String.eqb_sym, Hne.
    now rewrite String.eqb_refl.
  - now rewrite String.eqb_refl.
Qed.

(** X15.  Away from a UNION token [getUnionType] and
    [getIndexNextSelect] throw the error of the missing union. *)
Theorem union_not_found :
  forall (tokens : list Token) (index : Value),
    Select.isUnion K tokens index = false ->
    Select.getUnionType K tokens index = Throw unionNotFound
    /\ Select.getIndexNextSelect K tokens index = Throw unionNotFound.
Proof.
  intros tokens index H. unfold Select.getIndexNextSelect, Select.getUnionType.
  rewrite H. now split.
Qed.

Section From.

Variable walk : list Token -> Value -> Completion Value.

(** X16.  [walkFrom] after the source: with AS the alias is the token that
    follows AS, as an object, and the cursor moves four tokens; with an
    identifier right after the source the alias is the text of that
    identifier and the cursor moves three tokens; otherwise there is no
    alias and the cursor moves two tokens. *)
Theorem walkFrom_alias_forms :
  forall (tokens : list Token) (i : Z) (w from source : Value),
    walk tokens (VNum (i + 1)) = Return w ->
    getProp w "value" = Return from ->
    getProp from "value" = Return source ->
    let next := Select.typeOpt (at_ tokens (i + 2)) in
    let node alias :=
      VObj [("type", VStr (Select.Other_IDENTIFIER K));
            ("value", source); ("alias", alias)] in
    (next = VStr (Select.Command_AS K) ->
     Select.walkFrom K walk tokens (VNum i)
     = Return (node (Select.optTokenObj (at_ tokens (i + 3))), VNum (i + 4)))
    /\ (next <> VStr (Select.Command_AS K) ->
        next = VStr (Select.Other_IDENTIFIER K) ->
        Select.typeOpt (at_ tokens i) = VStr (Select.ReservedWord_FROM K) ->
        Select.Other_AS_ALIAS K <> Select.Other_SHORT_ALIAS K ->
        Select.walkFrom K walk tokens (VNum i)
        = Return (node (match at_ tokens (i + 2) with
                        | Some t => VStr (value t)
                        | None => VUndefined
                        end),
                  VNum (i + 3)))
    /\ (next <> VStr (Select.Command_AS K) ->
        next <> VStr (Select.Other_IDENTIFIER K) ->
        Select.walkFrom K walk tokens (VNum i)
        = Return (node VUndefined, VNum (i + 2))).
Proof.
  intros tokens i w from source Hw Hv Hs next node.
  assert (Hnext : forall s, strictEq next (VStr s) = true <-> next = VStr s).
  { intros s. unfold next. destruct (at_ tokens (i + 2)) as [t |];
      cbn [Select.typeOpt strictEq].
    - rewrite String.eqb_eq. split; [now intros -> | now intros [= ->]].
    - split; discriminate. }
  unfold Select.walkFrom, Select.getObjectAlias.
  cbn [Select.jsAdd Select.jsSub Select.tokenAt]. rewrite Hw. cbn [bind].
  rewrite Hv. cbn [bind].
  replace (i + 1 + 1) with (i + 2) by lia.
  replace (i + 2 + 1) with (i + 3) by lia.
  replace (i + 2 - 2) with i by lia.
  fold next. repeat split.
  - intros Has. apply Hnext in Has. rewrite Has.
    cbn [getPropOpt lookupProp String.eqb Ascii.eqb Bool.eqb strictEq].
    cbn. rewrite String.eqb_refl, Hs. cbn [bind andb].
    unfold node. now replace (i + 2 + 2) with (i + 4) by lia.
  - intros Hnas Hid Hfrom Hdiff.
    destruct (strictEq next (VStr (Select.Command_AS K))) eqn:E;
      [now apply Hnext in E |].
    apply Hnext in Hid. rewrite Hid, Hfrom.
    cbn. rewrite !String.eqb_refl. cbn.
    apply String.eqb_neq in Hdiff. rewrite String.eqb_sym, Hdiff, Hs.
    cbn. unfold node. now rewrite String.eqb_refl.
  - intros Hnas Hnid.
    destruct (strictEq next (VStr (Select.Command_AS K))) eqn:E;
      [now apply Hnext in E |].
    destruct (strictEq next (VStr (Select.Other_IDENTIFIER K))) eqn:E2;
      [now apply Hnext in E2 |].
    cbn. rewrite Hs. reflexivity.
Qed.

(** X17.  When FROM or a comma comes right after SELECT there is no column
    under construction to close: [walkColumns], and the default export
    with it, end in [TypeError]. *)
Theorem select_without_column_raises_TypeError :
  forall (fuel : nat) (tokens : list Token) (i : Z) (t : Token),
    at_ tokens (i + 1) = Some t ->
    type t = Select.ReservedWord_FROM K
    \/ type t = Select.Delimiter_COMMA_key K ->
    Select.walkColumns K walk (S fuel) tokens (VNum i) = Throw TypeError
    /\ Select.select K walk (S fuel) tokens (VNum i) = Throw TypeError.
Proof.
  intros fuel tokens i t Hat Hty.
  assert (H : Select.walkColumns K walk (S fuel) tokens (VNum i)
              = Throw TypeError).
  { unfold Select.walkColumns. cbn [Select.walkColumnsLoop Select.jsAdd Select.tokenAt].
    rewrite Hat. cbn [Select.typeOpt strictEq].
    destruct (String.eqb (type t) (Select.ReservedWord_FROM K)) eqn:Ef;
      [reflexivity |].
    destruct Hty as [Hty | Hty];
      [rewrite Hty, String.eqb_refl in Ef; discriminate |].
    cbn [negb]. now rewrite Hty, String.eqb_refl. }
  split; [exact H |]. unfold Select.select. now rewrite H.
Qed.

(** X18.  One comparison up to the end of the clause: the answer holds the
    comparison of the left token with what [walk] read on the right, and
    the cursor is on the token that ends the clause, three tokens further,
    or four when the right operand is announced by a quote. *)
Theorem walkWhereParts_one_comparison :
  forall (fuel : nat) (tokens : list Token) (i : Z)
         (left comparator : Token) (w right : Value),
    at_ tokens i = Some left ->
    at_ tokens (i + 1) = Some comparator ->
    Select.ReservedWord_isEndOfWhere K (Some left) = false ->
    Select.Operator_isLogical K (VStr (type left)) = false ->
    Select.Comparator_is K (VStr (type comparator)) = true ->
    let quoted := Select.isQuote K (at_ tokens (i + 2)) in
    let width := if quoted then 4 else 3 in
    walk tokens (VNum (i + (width - 1))) = Return w ->
    getProp w "value" = Return right ->
    Select.ReservedWord_isEndOfWhere K (at_ tokens (i + width)) = true ->
    Select.walkWhereParts K walk (S (S fuel)) tokens (VNum i)
    = Return (VObj [("value",
                     VObj [("type", VStr (type comparator));
                           ("left", tokenObj left);
                           ("right", right)]);
                    ("index", VNum (i + width))]).
Proof.
  intros fuel tokens i left comparator w right Hl Hc Hend Hlog Hcmp
         quoted width Hw Hv Hstop.
  unfold Select.walkWhereParts.
  cbn [Select.walkWherePartsLoop Select.jsAdd Select.tokenAt].
  rewrite Hl, Hend. cbn [negb Select.typeOpt]. rewrite Hlog, Hc.
  cbn [Select.typeOpt]. rewrite Hcmp. fold quoted.
  assert (Hidx : i + (if quoted then 3 else 2) = i + (width - 1))
    by (unfold width; destruct quoted; lia).
  rewrite Hidx, Hw. cbn [bind]. rewrite Hv. cbn [bind Select.optTokenObj].
  assert (Hnext : i + (if (if quoted then 3 else 2) =? 3 then 4 else 3)
                  = i + width)
    by (unfold width; destruct quoted; reflexivity).
  rewrite Hnext, Hstop. reflexivity.
Qed.

End From.

End SelectModule.

(** ** The same theorems at the constants modelled from the spec *)
Lemma splitTokensByConcatOperator_partition_witness :
  exists groups,
    Select.splitTokensByConcatOperator Select.specConstants concatParts
    = Return groups
    /\ length groups
       = S (length (filter (isOperator Select.specConstants) concatParts))
    /\ Forall (Forall (fun v => isOperator Select.specConstants v = false))
              groups
    /\ concat groups
       = filter (fun v => negb (isOperator Select.specConstants v))
                concatParts.
Proof.
  apply (splitTokensByConcatOperator_partition Select.specConstants
           concatParts).
  repeat constructor.
Defined.

Lemma processColumn_two_levels_witness :
  Select.processColumn Select.specConstants 5 concatParts VUndefined
  = Select.processColumn Select.specConstants 2 concatParts VUndefined.
Proof.
  apply (proj1 (processColumn_two_levels Select.specConstants concatParts
                  VUndefined 3 ltac:(repeat constructor))).
Defined.

Lemma next_select_after_union_witness :
  Select.getIndexNextSelect Select.specConstants threeSelects (VNum 4)
  = Return (VNum 6).
Proof.
  apply (proj2 (next_select_after_union Select.specConstants threeSelects 4
                  (keyword "UNION") ltac:(discriminate) eq_refl eq_refl)).
Defined.

Lemma union_not_found_witness :
  Select.getIndexNextSelect Select.specConstants (selectStar "t") (VNum 0)
  = Throw unionNotFound.
Proof.
  apply (proj2 (union_not_found Select.specConstants (selectStar "t")
                  (VNum 0) eq_refl)).
Defined.

Lemma walkFrom_alias_forms_witness :
  Select.walkFrom Select.specConstants
    (Select.walkModel Select.specConstants 1) fromWithAlias (VNum 0)
  = Return (VObj [("type", VStr "IDENTIFIER"); ("value", VStr "t");
                  ("alias", tokenObj (identifier "u"))],
            VNum 4).
Proof.
  apply (proj1 (walkFrom_alias_forms Select.specConstants
                  (Select.walkModel Select.specConstants 1) fromWithAlias 0
                  (VObj [("value", tokenObj (identifier "t"));
                         ("index", VNum 1)])
                  (tokenObj (identifier "t")) (VStr "t")
                  eq_refl eq_refl eq_refl)).
  reflexivity.
Defined.

Lemma select_without_column_witness :
  Select.select Select.specConstants
    (Select.walkModel Select.specConstants 1) 1
    [keyword "SELECT"; keyword "FROM"; identifier "t"] (VNum 0)
  = Throw TypeError.
Proof.
  apply (proj2 (select_without_column_raises_TypeError Select.specConstants
                  (Select.walkModel Select.specConstants 1) 0
                  [keyword "SELECT"; keyword "FROM"; identifier "t"] 0
                  (keyword "FROM") eq_refl (or_introl eq_refl))).
Defined.

Lemma walkWhereParts_one_comparison_witness :
  Select.walkWhereParts Select.specConstants
    (Select.walkModel Select.specConstants 1) 2 oneComparison (VNum 5)
  = Return (VObj [("value",
                   comparison "=" (identifier "x") (mkToken "NUMBER" "1"));
                  ("index", VNum 8)]).
Proof.
  apply (walkWhereParts_one_comparison Select.specConstants
           (Select.walkModel Select.specConstants 1) 0 oneComparison 5
           (identifier "x") (keyword "=")
           (VObj [("value", tokenObj (mkToken "NUMBER" "1"));
                  ("index", VNum 7)])
           (tokenObj (mkToken "NUMBER" "1")));
    reflexivity.
Defined.

(** ** The shapes of the answers *)

(** X12.  A Concatenation that [processColumn] answers for parts with [k]
    operators has exactly [k + 1] parts, hence at least two. *)
Theorem concatenation_has_one_part_more_than_operators :
  forall (K : Select.Constants) (fuel : nat) (parts : list Value)
         (alias node : Value),
    Forall (fun v => defined v = true) parts ->
    existsb (isOperator K) parts = true ->
    Select.processColumn K (S (S fuel)) parts alias = Return node ->
    exists subColumns,
      node = VObj [("type", VStr (Select.Other_CONCATENATION K));
                   ("value", VArr subColumns);
                   ("alias", alias)]
      /\ length subColumns = S (length (filter (isOperator K) parts))
      /\ (2 <= length subColumns)%nat.
Proof.
  intros K fuel parts alias node.
  exact (processColumn_concatenation_parts K fuel parts alias node).
Qed.

(** The theorem at the parts of a || b. *)
Lemma concatenation_parts_witness :
  exists subColumns,
    VObj [("type", VStr "CONCATENATION");
          ("value",
           VArr [VObj [("type", VStr "IDENTIFIER"); ("value", VStr "a");
                       ("alias", VUndefined)];
                 VObj [("type", VStr "IDENTIFIER"); ("value", VStr "b");
                       ("alias", VUndefined)]]);
          ("alias", VNull)]
    = VObj [("type", VStr (Select.Other_CONCATENATION Select.specConstants));
            ("value", VArr subColumns); ("alias", VNull)]
    /\ length subColumns
       = S (length (filter (isOperator Select.specConstants) concatParts))
    /\ (2 <= length subColumns)%nat.
Proof.
  apply (concatenation_has_one_part_more_than_operators Select.specConstants
           0 concatParts VNull).
  - repeat constructor.
  - reflexivity.
  - reflexivity.
Defined.

(** X19.  Whatever the imported names are, [walkWhereParts] answers either
    an object [{ value, index }], at the end of the clause, or the node of
    a logical operator, which has no [value] and no [index] property. *)
Theorem walkWhereParts_answer_shape :
  forall (K : Select.Constants)
         (walk : list Token -> Value -> Completion Value)
         (fuel : nat) (tokens : list Token) (index r : Value),
    Select.walkWhereParts K walk fuel tokens index = Return r ->
    (exists c i, r = VObj [("value", c); ("index", i)])
    \/ (exists op l rt,
           r = VObj [("type", VStr op); ("left", l); ("right", rt)]
           /\ Select.Operator_isLogical K (VStr op) = true
           /\ getProp r "value" = Return VUndefined
           /\ getProp r "index" = Return VUndefined).
Proof.
  intros K walk fuel tokens index r H. unfold Select.walkWhereParts in H.
  destruct (walkWherePartsLoop_shape K walk fuel _ _ _ _ H)
    as [Hend | (op & l & rt & -> & Hop)]; [now left |].
  right. exists op, l, rt. repeat split. exact Hop.
Qed.

(** The theorem at WHERE x = 1. *)
Lemma walkWhereParts_answer_shape_witness :
  (exists c i,
      VObj [("value",
             comparison "=" (identifier "x") (mkToken "NUMBER" "1"));
            ("index", VNum 8)]
      = VObj [("value", c); ("index", i)])
  \/ (exists op l rt,
         VObj [("value",
                comparison "=" (identifier "x") (mkToken "NUMBER" "1"));
               ("index", VNum 8)]
         = VObj [("type", VStr op); ("left", l); ("right", rt)]
         /\ Select.Operator_isLogical Select.specConstants (VStr op) = true
         /\ getProp
              (VObj [("value",
                      comparison "=" (identifier "x") (mkToken "NUMBER" "1"));
                     ("index", VNum 8)]) "value" = Return VUndefined
         /\ getProp
              (VObj [("value",
                      comparison "=" (identifier "x") (mkToken "NUMBER" "1"));
                     ("index", VNum 8)]) "index" = Return VUndefined).
Proof.
  apply (walkWhereParts_answer_shape Select.specConstants
           (Select.walkModel Select.specConstants 1) 2 oneComparison
           (VNum 5)).
  reflexivity.
Defined.

(** X20.  Whatever [walk] is, the default export answers either
    [{ value, index }] or, at a UNION, [{ type, value: { left, right } }]
    where [right] is the [value] property of what [walk] answered for the
    rest and where [value] itself has no [type]. *)
Theorem select_answer_shape :
  forall (K : Select.Constants)
         (walk : list Token -> Value -> Completion Value)
         (fuel : nat) (tokens : list Token) (index r : Value),
    Select.select K walk fuel tokens index = Return r ->
    (exists node i, r = VObj [("value", node); ("index", i)])
    \/ (exists kind l next w rt,
           r = VObj [("type", kind);
                     ("value", VObj [("left", l); ("right", rt)])]
           /\ walk tokens next = Return w
           /\ getProp w "value" = Return rt
           /\ (node <- getProp r "value" ;; getProp node "type")
              = Return VUndefined).
Proof.
  intros K walk fuel tokens index r H.
  destruct (select_shape K walk fuel tokens index r H)
    as [Hone | (kind & l & next & w & rt & -> & Hw & Hv)]; [now left |].
  right. exists kind, l, next, w, rt. repeat split; assumption.
Qed.

(** The theorem at SELECT * FROM t. *)
Lemma select_answer_shape_witness :
  (exists node i,
      VObj [("value", selectStarNode "t"); ("index", VNum 3)]
      = VObj [("value", node); ("index", i)])
  \/ (exists kind l next w rt,
         VObj [("value", selectStarNode "t"); ("index", VNum 3)]
         = VObj [("type", kind);
                 ("value", VObj [("left", l); ("right", rt)])]
         /\ Select.walkModel Select.specConstants 2 (selectStar "t") next
            = Return w
         /\ getProp w "value" = Return rt
         /\ (node <- getProp
                       (VObj [("value", selectStarNode "t");
                              ("index", VNum 3)]) "value" ;;
             getProp node "type") = Return VUndefined).
Proof.
  apply (select_answer_shape Select.specConstants
           (Select.walkModel Select.specConstants 2) 4 (selectStar "t")
           (VNum 0)).
  reflexivity.
Defined.

(** ** The pipeline always ends *)

(** X10.  On every input [parse] ends, and it ends with an answer or with
    [TypeError]: it raises no error of its own. *)
Theorem parse_returns_or_raises_TypeError :
  forall tokens : list string,
    (exists ast, Parser.parse tokens = Return ast)
    \/ Parser.parse tokens = Throw TypeError.
Proof.
  intros tokens. pose proof (parse_terminates tokens) as Hend.
  destruct (Parser.parse tokens) as [ast | e |] eqn:H.
  - left. now exists ast.
  - right. f_equal.
    unfold Parser.parse, Parser.syntaticAnalysis in H.
    exact (proj1 (walk_onlyTypeError _) _ _ e H).
  - now elim Hend.
Qed.
